(** * ldpi: the LDmicro interpretable-code virtual machine of [ldpi.c]

    A shallow embedding of the loader ([LoadProgram], [HexDigit]), the
    disassembler ([Disassemble]) and the interpreter ([InterpretOneCycle])
    of [src/ldpi.c], followed by the properties of these routines.

    Conventions of the embedding.
    - [WORD] and [SWORD] values are integers of [Z]; the narrowing
      conversions that C performs when a 32-bit [int] result is stored in
      a 16-bit cell are written out ([to_SWORD], [to_BYTE]).
    - The global arrays [Program], [Integers] and [Bits] are lists; an
      access outside an array is undefined behaviour in C and is an
      explicit [Undef]/[Undefined] outcome here.
    - The loop of [InterpretOneCycle] has no bound in the source, since
      an instruction may assign [pc]; it is run with a step budget, and a
      budget that runs out is reported as such, apart from every outcome
      of the program itself.  The loops of [Disassemble] and
      [LoadProgram] go through an array or through the input one element
      at a time and are recursions on it.
    - The values of the [INT_*] opcode macros are a parameter; the
      statements hold for every numbering with distinct labels. *)

From Stdlib Require Import ZArith Lia Ascii String DecimalString HexadecimalString.
From stdpp Require Import base list strings gmap.

Open Scope Z_scope.

(** ** Sizes and scalar types *)

Definition MAX_OPS : Z := 1024.
Definition MAX_VARIABLES : Z := 128.
Definition MAX_INTERNAL_RELAYS : Z := 128.

(** Conversion of an [int] to [SWORD] (signed short): reduction modulo
    2^16 into [-32768, 32767], as gcc defines the narrowing. *)
Definition to_SWORD (z : Z) : Z := (z + 32768) mod 65536 - 32768.

(** Conversion of an [int] to [BYTE] (unsigned char). *)
Definition to_BYTE (z : Z) : Z := z mod 256.

Definition is_SWORD (z : Z) : Prop := -32768 <= z <= 32767.

(** ** Instructions *)

(** [typedef struct { WORD op, name1, name2, name3; SWORD literal; } BinOp] *)
Record BinOp : Type := mkBinOp {
  op : Z;
  name1 : Z;
  name2 : Z;
  name3 : Z;
  literal : Z
}.

(** The seventeen case labels of the two [switch] statements, in the
    order in which the source lists them. *)
Inductive Opcode : Type :=
  | SET_BIT
  | CLEAR_BIT
  | COPY_BIT_TO_BIT
  | SET_VARIABLE_TO_LITERAL
  | SET_VARIABLE_TO_VARIABLE
  | INCREMENT_VARIABLE
  | SET_VARIABLE_ADD
  | SET_VARIABLE_SUBTRACT
  | SET_VARIABLE_MULTIPLY
  | SET_VARIABLE_DIVIDE
  | IF_BIT_SET
  | IF_BIT_CLEAR
  | IF_VARIABLE_LES_LITERAL
  | IF_VARIABLE_EQUALS_VARIABLE
  | IF_VARIABLE_GRT_VARIABLE
  | ELSE
  | END_OF_PROGRAM.

Definition all_opcodes : list Opcode :=
  [ SET_BIT; CLEAR_BIT; COPY_BIT_TO_BIT; SET_VARIABLE_TO_LITERAL;
    SET_VARIABLE_TO_VARIABLE; INCREMENT_VARIABLE; SET_VARIABLE_ADD;
    SET_VARIABLE_SUBTRACT; SET_VARIABLE_MULTIPLY; SET_VARIABLE_DIVIDE;
    IF_BIT_SET; IF_BIT_CLEAR; IF_VARIABLE_LES_LITERAL;
    IF_VARIABLE_EQUALS_VARIABLE; IF_VARIABLE_GRT_VARIABLE; ELSE;
    END_OF_PROGRAM ].

(** The numeric values of the [INT_*] macros come from [intcode.h], which
    is included by [ldpi.c] but is not one of its sources.  They are a
    parameter of the development: a table giving each label its value. *)
Record IntCodes : Type := mkIntCodes {
  INT_SET_BIT : Z;
  INT_CLEAR_BIT : Z;
  INT_COPY_BIT_TO_BIT : Z;
  INT_SET_VARIABLE_TO_LITERAL : Z;
  INT_SET_VARIABLE_TO_VARIABLE : Z;
  INT_INCREMENT_VARIABLE : Z;
  INT_SET_VARIABLE_ADD : Z;
  INT_SET_VARIABLE_SUBTRACT : Z;
  INT_SET_VARIABLE_MULTIPLY : Z;
  INT_SET_VARIABLE_DIVIDE : Z;
  INT_IF_BIT_SET : Z;
  INT_IF_BIT_CLEAR : Z;
  INT_IF_VARIABLE_LES_LITERAL : Z;
  INT_IF_VARIABLE_EQUALS_VARIABLE : Z;
  INT_IF_VARIABLE_GRT_VARIABLE : Z;
  INT_ELSE : Z;
  INT_END_OF_PROGRAM : Z
}.

Definition code (T : IntCodes) (o : Opcode) : Z :=
  match o with
  | SET_BIT => INT_SET_BIT T
  | CLEAR_BIT => INT_CLEAR_BIT T
  | COPY_BIT_TO_BIT => INT_COPY_BIT_TO_BIT T
  | SET_VARIABLE_TO_LITERAL => INT_SET_VARIABLE_TO_LITERAL T
  | SET_VARIABLE_TO_VARIABLE => INT_SET_VARIABLE_TO_VARIABLE T
  | INCREMENT_VARIABLE => INT_INCREMENT_VARIABLE T
  | SET_VARIABLE_ADD => INT_SET_VARIABLE_ADD T
  | SET_VARIABLE_SUBTRACT => INT_SET_VARIABLE_SUBTRACT T
  | SET_VARIABLE_MULTIPLY => INT_SET_VARIABLE_MULTIPLY T
  | SET_VARIABLE_DIVIDE => INT_SET_VARIABLE_DIVIDE T
  | IF_BIT_SET => INT_IF_BIT_SET T
  | IF_BIT_CLEAR => INT_IF_BIT_CLEAR T
  | IF_VARIABLE_LES_LITERAL => INT_IF_VARIABLE_LES_LITERAL T
  | IF_VARIABLE_EQUALS_VARIABLE => INT_IF_VARIABLE_EQUALS_VARIABLE T
  | IF_VARIABLE_GRT_VARIABLE => INT_IF_VARIABLE_GRT_VARIABLE T
  | ELSE => INT_ELSE T
  | END_OF_PROGRAM => INT_END_OF_PROGRAM T
  end.

(** A C [switch] needs pairwise distinct case labels to compile. *)
Definition distinct_codes (T : IntCodes) : Prop :=
  NoDup (map (code T) all_opcodes).

(** [switch(Program[pc].op)]: the label selected by the value [v], or
    [None] when no [case] matches.  With distinct labels the order of the
    search does not matter. *)
Definition classify (T : IntCodes) (v : Z) : option Opcode :=
  find (fun o => code T o =? v) all_opcodes.

(** The opcode set: the values some [case] label carries. *)
Definition known_op (T : IntCodes) (v : Z) : Prop :=
  exists o, code T o = v.

(** A numbering with pairwise distinct labels, used to run the definitions
    on concrete programs; the values are those of LDmicro's interpretable
    byte code.  The general statements below hold for every numbering. *)
Definition sample_codes : IntCodes :=
  {| INT_SET_BIT := 1;
     INT_CLEAR_BIT := 2;
     INT_COPY_BIT_TO_BIT := 3;
     INT_SET_VARIABLE_TO_LITERAL := 4;
     INT_SET_VARIABLE_TO_VARIABLE := 5;
     INT_INCREMENT_VARIABLE := 6;
     INT_SET_VARIABLE_ADD := 7;
     INT_SET_VARIABLE_SUBTRACT := 8;
     INT_SET_VARIABLE_MULTIPLY := 9;
     INT_SET_VARIABLE_DIVIDE := 10;
     INT_IF_BIT_SET := 50;
     INT_IF_BIT_CLEAR := 51;
     INT_IF_VARIABLE_LES_LITERAL := 52;
     INT_IF_VARIABLE_EQUALS_VARIABLE := 53;
     INT_IF_VARIABLE_GRT_VARIABLE := 54;
     INT_ELSE := 60;
     INT_END_OF_PROGRAM := 255 |}.

(** ** The machine: the three global arrays *)

Record Machine : Type := mkMachine {
  Program : list BinOp;
  Integers : list Z;
  Bits : list Z
}.

(** [a[i]] as an rvalue: [None] outside the array. *)
Definition rd {A : Type} (a : list A) (i : Z) : option A :=
  if i <? 0 then None else a !! Z.to_nat i.

(** [a[i] = v]: [None] outside the array. *)
Definition wr {A : Type} (a : list A) (i : Z) (v : A) : option (list A) :=
  if (0 <=? i) && (i <? Z.of_nat (length a))
  then Some (<[Z.to_nat i := v]> a) else None.

Definition set_Integers (m : Machine) (a : list Z) : Machine :=
  {| Program := Program m; Integers := a; Bits := Bits m |}.

Definition set_Bits (m : Machine) (a : list Z) : Machine :=
  {| Program := Program m; Integers := Integers m; Bits := a |}.

(** ** InterpretOneCycle *)

(** What one pass through the body of the [for] loop leaves behind:
    [Break m pc] leaves the [switch] with the (possibly reassigned) [pc],
    [Return m] is the [return] of [INT_END_OF_PROGRAM], [Undef] an access
    outside an array. *)
Inductive Flow : Type :=
  | Break (m : Machine) (pc : Z)
  | Return (m : Machine)
  | Undef.

Definition store_int (m : Machine) (pc : Z) (i : Z) (v : Z) : Flow :=
  match wr (Integers m) i v with
  | Some a => Break (set_Integers m a) pc
  | None => Undef
  end.

Definition store_bit (m : Machine) (pc : Z) (i : Z) (v : Z) : Flow :=
  match wr (Bits m) i v with
  | Some a => Break (set_Bits m a) pc
  | None => Undef
  end.

(** [Integers[p->name2] <op> Integers[p->name3]], computed on [int] and
    stored into the [SWORD] cell [Integers[p->name1]]. *)
Definition arith (f : Z -> Z -> Z) (m : Machine) (pc : Z) (p : BinOp) : Flow :=
  match rd (Integers m) (name2 p), rd (Integers m) (name3 p) with
  | Some x, Some y => store_int m pc (name1 p) (to_SWORD (f x y))
  | _, _ => Undef
  end.

(** [if(!cond) pc = p->name3;] *)
Definition jump_unless (cond : bool) (m : Machine) (pc : Z) (p : BinOp) : Flow :=
  if cond then Break m pc else Break m (name3 p).

Definition body (T : IntCodes) (m : Machine) (pc : Z) : Flow :=
  match rd (Program m) pc with
  | None => Undef
  | Some p =>
    match classify T (op p) with
    | Some SET_BIT => store_bit m pc (name1 p) 1
    | Some CLEAR_BIT => store_bit m pc (name1 p) 0
    | Some COPY_BIT_TO_BIT =>
        match rd (Bits m) (name2 p) with
        | Some b => store_bit m pc (name1 p) b
        | None => Undef
        end
    | Some SET_VARIABLE_TO_LITERAL => store_int m pc (name1 p) (literal p)
    | Some SET_VARIABLE_TO_VARIABLE =>
        match rd (Integers m) (name2 p) with
        | Some x => store_int m pc (name1 p) x
        | None => Undef
        end
    | Some INCREMENT_VARIABLE =>
        match rd (Integers m) (name1 p) with
        | Some x => store_int m pc (name1 p) (to_SWORD (x + 1))
        | None => Undef
        end
    | Some SET_VARIABLE_ADD => arith Z.add m pc p
    | Some SET_VARIABLE_SUBTRACT => arith Z.sub m pc p
    | Some SET_VARIABLE_MULTIPLY => arith Z.mul m pc p
    | Some SET_VARIABLE_DIVIDE =>
        match rd (Integers m) (name3 p) with
        | Some y =>
            if y =? 0 then Break m pc
            else arith Z.quot m pc p
        | None => Undef
        end
    | Some IF_BIT_SET =>
        match rd (Bits m) (name1 p) with
        | Some b => jump_unless (negb (b =? 0)) m pc p
        | None => Undef
        end
    | Some IF_BIT_CLEAR =>
        match rd (Bits m) (name1 p) with
        | Some b => jump_unless (b =? 0) m pc p
        | None => Undef
        end
    | Some IF_VARIABLE_LES_LITERAL =>
        match rd (Integers m) (name1 p) with
        | Some x => jump_unless (x <? literal p) m pc p
        | None => Undef
        end
    | Some IF_VARIABLE_EQUALS_VARIABLE =>
        match rd (Integers m) (name1 p), rd (Integers m) (name2 p) with
        | Some x, Some y => jump_unless (x =? y) m pc p
        | _, _ => Undef
        end
    | Some IF_VARIABLE_GRT_VARIABLE =>
        match rd (Integers m) (name1 p), rd (Integers m) (name2 p) with
        | Some x, Some y => jump_unless (x >? y) m pc p
        | _, _ => Undef
        end
    | Some ELSE => Break m (name3 p)
    | Some END_OF_PROGRAM => Return m
    | None => Break m pc
    end
  end.

(** How a call ends. *)
Inductive Outcome (A : Type) : Type :=
  | Returned (a : A)
  | Undefined
  | OutOfFuel.
Arguments Returned {A} a.
Arguments Undefined {A}.
Arguments OutOfFuel {A}.

(** [for(pc = ...; ; pc++) { body }], entered with the given [pc]. *)
Fixpoint cycle_from (T : IntCodes) (fuel : nat) (m : Machine) (pc : Z)
  : Outcome Machine :=
  match fuel with
  | O => OutOfFuel
  | S k =>
    match body T m pc with
    | Break m' pc' => cycle_from T k m' (pc' + 1)
    | Return m' => Returned m'
    | Undef => Undefined
    end
  end.

Definition InterpretOneCycle (T : IntCodes) (fuel : nat) (m : Machine)
  : Outcome Machine :=
  cycle_from T fuel m 0.

(** ** printf conversions *)

Definition newline : ascii := ascii_of_nat 10.
Definition carriage_return : ascii := ascii_of_nat 13.

Definition zeros (n : nat) : string :=
  string_of_list_ascii (replicate n "0"%char).

(** Left padding with zeros up to the field width. *)
Definition pad0 (width : nat) (s : string) : string :=
  zeros (width - String.length s) +:+ s.

(** ["%0<width>x"]: the argument, an [int], is printed as an
    [unsigned int] in lower-case hexadecimal. *)
Definition fmt_x (width : nat) (z : Z) : string :=
  pad0 width
    (HexadecimalString.NilZero.string_of_uint
       (N.to_hex_uint (Z.to_N (z mod 2 ^ 32)))).

(** ["%d"] *)
Definition fmt_d (z : Z) : string :=
  DecimalString.NilZero.string_of_int (Z.to_int z).

(** ** Disassemble *)

(** What the [switch] of [Disassemble] does with one instruction: print a
    text and [break], print the last line and [return], or call
    [BadFormat], which ends the process. *)
Inductive Printed : Type :=
  | Line (s : string)
  | Last (s : string)
  | Fatal.

Definition arith_text (c : string) (p : BinOp) : string :=
  "int16s[" +:+ fmt_x 3 (name1 p) +:+ "] := int16s[" +:+ fmt_x 3 (name2 p)
    +:+ "] " +:+ c +:+ " int16s[" +:+ fmt_x 3 (name3 p) +:+ "]".

Definition cond_text (s : string) (p : BinOp) : string :=
  s +:+ " jump " +:+ fmt_x 3 (name3 p) +:+ "+1".

Definition dis_switch (T : IntCodes) (p : BinOp) : Printed :=
  match classify T (op p) with
  | Some SET_BIT => Line ("bits[" +:+ fmt_x 3 (name1 p) +:+ "] := 1")
  | Some CLEAR_BIT => Line ("bits[" +:+ fmt_x 3 (name1 p) +:+ "] := 0")
  | Some COPY_BIT_TO_BIT =>
      Line ("bits[" +:+ fmt_x 3 (name1 p) +:+ "] := bits["
              +:+ fmt_x 3 (name2 p) +:+ "]")
  | Some SET_VARIABLE_TO_LITERAL =>
      Line ("int16s[" +:+ fmt_x 3 (name1 p) +:+ "] := " +:+ fmt_d (literal p)
              +:+ " (0x" +:+ fmt_x 4 (literal p) +:+ ")")
  | Some SET_VARIABLE_TO_VARIABLE =>
      Line ("int16s[" +:+ fmt_x 3 (name1 p) +:+ "] := int16s["
              +:+ fmt_x 3 (name2 p) +:+ "]")
  | Some INCREMENT_VARIABLE =>
      Line ("(int16s[" +:+ fmt_x 3 (name1 p) +:+ "])++")
  | Some SET_VARIABLE_ADD => Line (arith_text "+" p)
  | Some SET_VARIABLE_SUBTRACT => Line (arith_text "-" p)
  | Some SET_VARIABLE_MULTIPLY => Line (arith_text "*" p)
  | Some SET_VARIABLE_DIVIDE => Line (arith_text "/" p)
  | Some IF_BIT_SET =>
      Line (cond_text ("unless (bits[" +:+ fmt_x 3 (name1 p) +:+ "] set)") p)
  | Some IF_BIT_CLEAR =>
      Line (cond_text ("unless (bits[" +:+ fmt_x 3 (name1 p) +:+ "] clear)") p)
  | Some IF_VARIABLE_LES_LITERAL =>
      Line (cond_text ("unless (int16s[" +:+ fmt_x 3 (name1 p) +:+ "] < "
                         +:+ fmt_d (literal p) +:+ ")") p)
  | Some IF_VARIABLE_EQUALS_VARIABLE =>
      Line (cond_text ("unless (int16s[" +:+ fmt_x 3 (name1 p)
                         +:+ "] == int16s[" +:+ fmt_x 3 (name2 p) +:+ "])") p)
  | Some IF_VARIABLE_GRT_VARIABLE =>
      Line (cond_text ("unless (int16s[" +:+ fmt_x 3 (name1 p)
                         +:+ "] > int16s[" +:+ fmt_x 3 (name2 p) +:+ "])") p)
  | Some ELSE => Line ("jump " +:+ fmt_x 3 (name3 p) +:+ "+1")
  | Some END_OF_PROGRAM => Last "<end of program>"
  | None => Fatal
  end.

(** How the process stands when a routine is over. *)
Inductive Status : Type :=
  | Finished
  | ExitFailure
  | UndefinedBehaviour.

Definition nl : string := String newline EmptyString.

(** The text an iteration writes to the standard output, with the
    newline that closes it. *)
Definition dis_line (pc : Z) (s : string) : string :=
  fmt_x 3 pc +:+ ": " +:+ s +:+ nl.

(** [for(pc = ...; ; pc++)] over [Program[pc]]: [rest] is the part of the
    array from index [pc] on.  [pc] grows by one in every iteration and
    nothing else assigns it, so the loop is a recursion on the array; it
    leaves the array when no instruction stops it before. *)
Fixpoint Disassemble_from (T : IntCodes) (pc : Z) (rest : list BinOp)
  : string * Status :=
  match rest with
  | [] => (EmptyString, UndefinedBehaviour)
  | p :: rest' =>
    match dis_switch T p with
    | Line s =>
        let r := Disassemble_from T (pc + 1) rest' in
        (dis_line pc s +:+ fst r, snd r)
    | Last s => (dis_line pc s, Finished)
    | Fatal => (fmt_x 3 pc +:+ ": ", ExitFailure)
    end
  end.

(** [Disassemble] reads the globals and writes to the standard output; it
    is given the whole machine and returns the text with the status. *)
Definition Disassemble (T : IntCodes) (m : Machine) : string * Status :=
  Disassemble_from T 0 (Program m).

(** ** C strings *)

(** The text lines are the C strings [fgets] leaves in [line]: no NUL
    inside, the newline kept when the line had one. *)

Definition char_code (c : ascii) : Z := Z.of_N (N_of_ascii c).

(** [s[k]]: the character, or the terminating NUL at the end. *)
Definition char_at (s : string) (k : nat) : Z :=
  match String.get k s with
  | Some c => char_code c
  | None => 0
  end.

Definition tolower (c : Z) : Z :=
  if (65 <=? c) && (c <=? 90) then c + 32 else c.

Definition isdigit (c : Z) : bool := (48 <=? c) && (c <=? 57).

Definition isspace (c : Z) : bool :=
  (c =? 32) || ((9 <=? c) && (c <=? 13)).

(** [strstr(s, needle) != NULL] *)
Fixpoint strstr (s needle : string) : bool :=
  String.prefix needle s ||
  match s with
  | EmptyString => false
  | String _ s' => strstr s' needle
  end.

(** [s + n] for [n] within the string. *)
Fixpoint advance (n : nat) (s : string) : string :=
  match n, s with
  | S k, String _ s' => advance k s'
  | _, _ => s
  end.

Fixpoint skip_space (s : string) : string :=
  match s with
  | String c s' => if isspace (char_code c) then skip_space s' else s
  | EmptyString => s
  end.

Fixpoint digits_value (acc : Z) (s : string) : Z :=
  match s with
  | String c s' =>
      if isdigit (char_code c)
      then digits_value (10 * acc + (char_code c - 48)) s'
      else acc
  | EmptyString => acc
  end.

(** [atoi]: white space, an optional sign, decimal digits.  A value that
    an [int] cannot hold is undefined, [None]. *)
Definition signed_value (s : string) : Z :=
  match s with
  | String c s' =>
      if Ascii.eqb c "-" then - digits_value 0 s'
      else if Ascii.eqb c "+" then digits_value 0 s'
      else digits_value 0 s
  | EmptyString => 0
  end.

Definition atoi (s : string) : option Z :=
  let v := signed_value (skip_space s) in
  if (- 2 ^ 31 <=? v) && (v <? 2 ^ 31) then Some v else None.

(** The delimiters of the two [strtok] calls, [","] and [",\r\n"]. *)
Definition delim_comma (c : ascii) : bool := Ascii.eqb c ","%char.

Definition delim_comma_cr_lf (c : ascii) : bool :=
  Ascii.eqb c ","%char || Ascii.eqb c carriage_return || Ascii.eqb c newline.

(** The delimiters [strtok] skips before a token. *)
Fixpoint leading (delim : ascii -> bool) (s : string) : string :=
  match s with
  | String c s' => if delim c then String c (leading delim s') else EmptyString
  | EmptyString => EmptyString
  end.

Fixpoint skip_leading (delim : ascii -> bool) (s : string) : string :=
  match s with
  | String c s' => if delim c then skip_leading delim s' else s
  | EmptyString => s
  end.

(** The token at the head of [s] and what follows the delimiter that ends
    it (the position [strtok] saves for the next call). *)
Fixpoint token (delim : ascii -> bool) (s : string) : string * string :=
  match s with
  | EmptyString => (EmptyString, EmptyString)
  | String c s' =>
      if delim c then (EmptyString, s')
      else let r := token delim s' in (String c (fst r), snd r)
  end.

(** [strtok]: [None] is the NULL it returns when only delimiters are
    left. *)
Definition strtok (delim : ascii -> bool) (s : string)
  : option (string * string) :=
  match skip_leading delim s with
  | EmptyString => None
  | s' => Some (token delim s')
  end.

(** ** LoadProgram *)

(** How the loader ends: it returns, it leaves the process through
    [exit(-1)], or its behaviour is undefined (a NULL pointer handed to
    [strstr] or [atoi], a write behind [Program]). *)
Inductive Result (A : Type) : Type :=
  | Ok (a : A)
  | Exit
  | Crash.
Arguments Ok {A} a.
Arguments Exit {A}.
Arguments Crash {A}.

(** [HexDigit]; [None] is the call of [BadFormat], which does not
    return. *)
Definition HexDigit (c : Z) : option Z :=
  let c := tolower c in
  if isdigit c then Some (c - 48)
  else if (97 <=? c) && (c <=? 102) then Some (c - 97 + 10)
  else None.

(** [b[i] = HexDigit(t[1]) | (HexDigit(t[0]) << 4)] with [t = line + 2*i] *)
Definition hex_byte (line : string) (i : nat) : option Z :=
  lo ← HexDigit (char_at line (2 * i + 1));
  hi ← HexDigit (char_at line (2 * i));
  Some (to_BYTE (Z.lor lo (Z.shiftl hi 4))).

(** A 16-bit field from its two bytes; the target is little-endian. *)
Definition WORD_of_bytes (b0 b1 : Z) : Z := Z.lor b0 (Z.shiftl b1 8).

(** The ten bytes of a [BinOp], [sizeof(BinOp) = 10], read from the
    twenty hexadecimal digits at the head of the line. *)
Definition decode_BinOp (line : string) : option BinOp :=
  b0 ← hex_byte line 0; b1 ← hex_byte line 1;
  b2 ← hex_byte line 2; b3 ← hex_byte line 3;
  b4 ← hex_byte line 4; b5 ← hex_byte line 5;
  b6 ← hex_byte line 6; b7 ← hex_byte line 7;
  b8 ← hex_byte line 8; b9 ← hex_byte line 9;
  Some {| op := WORD_of_bytes b0 b1;
          name1 := WORD_of_bytes b2 b3;
          name2 := WORD_of_bytes b4 b5;
          name3 := WORD_of_bytes b6 b7;
          literal := to_SWORD (WORD_of_bytes b8 b9) |}.

Definition set_Program (m : Machine) (a : list BinOp) : Machine :=
  {| Program := a; Integers := Integers m; Bits := Bits m |}.

(** The loop that fills [Program]; it hands back the lines that follow
    the ["$$bits"] line.  The first byte is converted before anything is
    written, so a line that does not start with two hexadecimal digits
    ends the process even when [Program] is full. *)
Fixpoint load_code (pc : Z) (m : Machine) (lines : list string)
  : Result (Machine * list string) :=
  match lines with
  | [] => Exit
  | line :: rest =>
    if strstr line "$$bits" then Ok (m, rest)
    else
      match hex_byte line 0 with
      | None => Exit
      | Some _ =>
        if (0 <=? pc) && (pc <? Z.of_nat (length (Program m))) then
          match decode_BinOp line with
          | None => Exit
          | Some p =>
              load_code (pc + 1)
                (set_Program m (<[Z.to_nat pc := p]> (Program m))) rest
          end
        else Crash
      end
  end.

(** The sixteen globals [GPI0] .. [GPO7], kept under their names. *)
Definition pin_names : list string :=
  [ "GPI0"; "GPI1"; "GPI2"; "GPI3"; "GPI4"; "GPI5"; "GPI6"; "GPI7";
    "GPO0"; "GPO1"; "GPO2"; "GPO3"; "GPO4"; "GPO5"; "GPO6"; "GPO7" ]%string.

(** [GPI0=-1; ... GPO7=-1;] *)
Definition init_pins : gmap string Z :=
  list_to_map ((fun n => (n, -1)) <$> pin_names).

(** [if(strstr(symbol, "GPIx")) GPIx = atoi(addr);] *)
Definition assign_pin (symbol : string) (addr : option string)
    (r : Result (gmap string Z)) (name : string) : Result (gmap string Z) :=
  match r with
  | Ok pins =>
      if strstr symbol name then
        match addr with
        | None => Crash
        | Some a =>
            match atoi a with
            | Some v => Ok (<[name := v]> pins)
            | None => Crash
            end
        end
      else Ok pins
  | _ => r
  end.

(** The [$$cycle] test on [line], which the first [strtok] has cut after
    the symbol. *)
Definition check_cycle (line : string) : Result unit :=
  if strstr line "$$cycle" then
    match atoi (advance 7 line) with
    | Some cycle => if cycle =? 10 * 1000 then Ok tt else Exit
    | None => Crash
    end
  else Ok tt.

(** The body of the [while(fgets(...))] loop.  [symbol] is NULL when the
    line has nothing but commas, and [strstr] is then handed NULL; [addr]
    is NULL when nothing follows the symbol, and it only matters when a
    name is found in the symbol and [atoi] is called.  The [printf] of
    the two strings changes none of the globals and is left out. *)
Definition load_symbol (line : string) (pins : gmap string Z)
  : Result (gmap string Z) :=
  match strtok delim_comma line with
  | None => Crash
  | Some (symbol, saved) =>
      let addr := fst <$> strtok delim_comma_cr_lf saved in
      match foldl (assign_pin symbol addr) (Ok pins) pin_names with
      | Ok pins' =>
          match check_cycle (leading delim_comma line +:+ symbol) with
          | Ok _ => Ok pins'
          | Exit => Exit
          | Crash => Crash
          end
      | r => r
      end
  end.

Fixpoint load_symbols (pins : gmap string Z) (lines : list string)
  : Result (gmap string Z) :=
  match lines with
  | [] => Ok pins
  | line :: rest =>
      match load_symbol line pins with
      | Ok pins' => load_symbols pins' rest
      | r => r
      end
  end.

(** [LoadProgram]: [file] is [None] when [fopen] fails, and otherwise the
    lines [fgets] reads one after the other.  [m] holds the globals at
    the call; the sixteen pin variables are set to -1 before the loops. *)
Definition LoadProgram (m : Machine) (file : option (list string))
  : Result (Machine * gmap string Z) :=
  match file with
  | None => Exit
  | Some [] => Exit
  | Some (first :: lines) =>
      if strstr first "$$LDcode" then
        match load_code 0 m lines with
        | Ok (m', symbols) =>
            match load_symbols init_pins symbols with
            | Ok pins => Ok (m', pins)
            | Exit => Exit
            | Crash => Crash
            end
        | Exit => Exit
        | Crash => Crash
        end
      else Exit
  end.

(** ** Notions used to state the properties *)

(** The condition an [IF_*] instruction tests, read off the banks;
    [None] for the other opcodes and outside the banks. *)
Definition tested (o : Opcode) (m : Machine) (p : BinOp) : option bool :=
  match o with
  | IF_BIT_SET => b ← rd (Bits m) (name1 p); Some (negb (b =? 0))
  | IF_BIT_CLEAR => b ← rd (Bits m) (name1 p); Some (b =? 0)
  | IF_VARIABLE_LES_LITERAL =>
      x ← rd (Integers m) (name1 p); Some (x <? literal p)
  | IF_VARIABLE_EQUALS_VARIABLE =>
      x ← rd (Integers m) (name1 p);
      y ← rd (Integers m) (name2 p); Some (x =? y)
  | IF_VARIABLE_GRT_VARIABLE =>
      x ← rd (Integers m) (name1 p);
      y ← rd (Integers m) (name2 p); Some (y <? x)
  | _ => None
  end.

Definition is_conditional (o : Opcode) : bool :=
  match o with
  | IF_BIT_SET | IF_BIT_CLEAR | IF_VARIABLE_LES_LITERAL
  | IF_VARIABLE_EQUALS_VARIABLE | IF_VARIABLE_GRT_VARIABLE => true
  | _ => false
  end.

(** The instructions that may assign [pc]. *)
Definition is_jump (o : Opcode) : bool :=
  is_conditional o || match o with ELSE => true | _ => false end.

Definition jumps (T : IntCodes) (p : BinOp) : bool :=
  match classify T (op p) with
  | Some o => is_jump o
  | None => false
  end.

Definition known_opb (T : IntCodes) (v : Z) : bool :=
  match classify T v with Some _ => true | None => false end.

Definition is_END (T : IntCodes) (p : BinOp) : bool :=
  match classify T (op p) with Some END_OF_PROGRAM => true | _ => false end.

Definition in_bank (n : nat) (a : Z) : bool :=
  (0 <=? a) && (a <? Z.of_nat n).

(** A well-formed Program: every opcode is in the set, every jump lands
    on an instruction of the Program (operand 3 and operand 3 + 1 are
    both indices of it), and the last instruction is END_OF_PROGRAM. *)
Definition well_formed (T : IntCodes) (P : list BinOp) : bool :=
  forallb (fun p => known_opb T (op p)) P
  && forallb (fun p => negb (jumps T p)
                       || in_bank (length P) (name3 p)
                          && in_bank (length P) (name3 p + 1)) P
  && match last P with Some e => is_END T e | None => false end.

(** Every address an instruction uses lies in its bank, for banks of
    [nI] integers and [nB] bits. *)
Definition addresses_ok (T : IntCodes) (nI nB : nat) (p : BinOp) : bool :=
  match classify T (op p) with
  | Some SET_BIT | Some CLEAR_BIT | Some IF_BIT_SET | Some IF_BIT_CLEAR =>
      in_bank nB (name1 p)
  | Some COPY_BIT_TO_BIT => in_bank nB (name1 p) && in_bank nB (name2 p)
  | Some SET_VARIABLE_TO_LITERAL | Some INCREMENT_VARIABLE
  | Some IF_VARIABLE_LES_LITERAL => in_bank nI (name1 p)
  | Some SET_VARIABLE_TO_VARIABLE | Some IF_VARIABLE_EQUALS_VARIABLE
  | Some IF_VARIABLE_GRT_VARIABLE =>
      in_bank nI (name1 p) && in_bank nI (name2 p)
  | Some SET_VARIABLE_ADD | Some SET_VARIABLE_SUBTRACT
  | Some SET_VARIABLE_MULTIPLY | Some SET_VARIABLE_DIVIDE =>
      in_bank nI (name1 p) && in_bank nI (name2 p) && in_bank nI (name3 p)
  | Some ELSE | Some END_OF_PROGRAM | None => true
  end.

(** No jump goes backwards: the operand 3 of a jump at index [i] is at
    least [i], so that execution resumes behind the jump. *)
Fixpoint forward_from (T : IntCodes) (i : Z) (P : list BinOp) : bool :=
  match P with
  | [] => true
  | p :: P' =>
      (negb (jumps T p) || (i <=? name3 p)) && forward_from T (i + 1) P'
  end.

Definition forward_only (T : IntCodes) (P : list BinOp) : bool :=
  forward_from T 0 P.

(** The cycle returns. *)
Definition terminates (T : IntCodes) (m : Machine) : Prop :=
  exists fuel m', InterpretOneCycle T fuel m = Returned m'.

(** [n] calls of [InterpretOneCycle] in a row, as the driver makes them. *)
Fixpoint cycles (T : IntCodes) (fuel : nat) (n : nat) (m : Machine)
  : Outcome Machine :=
  match n with
  | O => Returned m
  | S k =>
      match InterpretOneCycle T fuel m with
      | Returned m' => cycles T fuel k m'
      | r => r
      end
  end.

(** The text [Disassemble] prints for an instruction, after the index. *)
Definition line_text (T : IntCodes) (p : BinOp) : string :=
  match dis_switch T p with
  | Line s => s
  | Last s => s
  | Fatal => EmptyString
  end.

Fixpoint has_char (c : ascii) (s : string) : bool :=
  match s with
  | EmptyString => false
  | String c' s' => Ascii.eqb c c' || has_char c s'
  end.

(** The lines written one after the other. *)
Fixpoint unlines (l : list string) : string :=
  match l with
  | [] => EmptyString
  | s :: l' => s +:+ nl +:+ unlines l'
  end.

Fixpoint all_digits (s : string) : bool :=
  match s with
  | EmptyString => true
  | String c s' => isdigit (char_code c) && all_digits s'
  end.

(** No character of the string is a delimiter. *)
Fixpoint free_of (delim : ascii -> bool) (s : string) : bool :=
  match s with
  | EmptyString => true
  | String c s' => negb (delim c) && free_of delim s'
  end.

(** The line of an .int file that gives the cycle time in microseconds. *)
Definition cycle_line (digits : string) : string :=
  "$$cycle " +:+ digits +:+ " us" +:+ nl.


Definition cycle_text (digits eol : string) : string :=
  "$$cycle " +:+ digits +:+ " us" +:+ eol.


(** A symbol line, [name,address]. *)
Definition symbol_line (name addr : string) : string :=
  name +:+ "," +:+ addr +:+ nl.


(** An instruction with the opcode value the table gives its label. *)
Definition instr (T : IntCodes) (o : Opcode) (a b c l : Z) : BinOp :=
  {| op := code T o; name1 := a; name2 := b; name3 := c; literal := l |}.

(** The exact result of the three binary operations that have no
    special case, before it is stored. *)
Definition exact_result (o : Opcode) (x y : Z) : option Z :=
  match o with
  | SET_VARIABLE_ADD => Some (x + y)
  | SET_VARIABLE_SUBTRACT => Some (x - y)
  | SET_VARIABLE_MULTIPLY => Some (x * y)
  | _ => None
  end.

(** A Program with a jump that goes backwards. *)
Definition looping_machine : Machine :=
  {| Program := [ instr sample_codes SET_BIT 0 0 0 0;
                  instr sample_codes ELSE 0 0 0 0;
                  instr sample_codes END_OF_PROGRAM 0 0 0 0 ];
     Integers := [0];
     Bits := [0] |}.

(** The lines [Disassemble] writes for the instructions of [P], the
    first of which has index [pc]; each is followed by a newline. *)
Fixpoint dis_lines (T : IntCodes) (pc : Z) (P : list BinOp) : list string :=
  match P with
  | [] => []
  | p :: P' =>
      (fmt_x 3 pc +:+ ": " +:+ line_text T p) :: dis_lines T (pc + 1) P'
  end.

(** The instructions before the first END_OF_PROGRAM all have an opcode
    of the set. *)
Definition listed (T : IntCodes) (p : BinOp) : bool :=
  known_opb T (op p) && negb (is_END T p).

(** The globals as the C start-up code leaves them: all zero. *)
Definition zero_BinOp : BinOp :=
  {| op := 0; name1 := 0; name2 := 0; name3 := 0; literal := 0 |}.

Definition initial_machine : Machine :=
  {| Program := replicate (Z.to_nat MAX_OPS) zero_BinOp;
     Integers := replicate (Z.to_nat MAX_VARIABLES) 0;
     Bits := replicate (Z.to_nat MAX_INTERNAL_RELAYS) 0 |}.


(** A line of text with its newline. *)
Definition text_line (s : string) : string := s +:+ nl.

(** A record line is not the ["$$bits"] line and starts with twenty
    hexadecimal digits, which give the instruction [p]. *)
Definition record_of (line : string) (p : BinOp) : Prop :=
  strstr line "$$bits" = false /\ decode_BinOp line = Some p.

(** The Program [IF_BIT_SET bit0, target 1; SET_BIT bit1; END] with two
    bits, the first of which is given. *)
Definition jump_bias_machine (bit0 : Z) : Machine :=
  {| Program := [ instr sample_codes IF_BIT_SET 0 0 1 0;
                  instr sample_codes SET_BIT 1 0 0 0;
                  instr sample_codes END_OF_PROGRAM 0 0 0 0 ];
     Integers := [];
     Bits := [bit0; 0] |}.

(** The Program [DIVIDE 0,1,2; END] with the integers 9, 5 and a given
    divisor. *)
Definition divide_machine (divisor : Z) : Machine :=
  {| Program := [ instr sample_codes SET_VARIABLE_DIVIDE 0 1 2 0;
                  instr sample_codes END_OF_PROGRAM 0 0 0 0 ];
     Integers := [9; 5; divisor];
     Bits := [] |}.

(** The Program [DIVIDE 0,1,2; END] with the integers 0, -32768 and -1:
    the one pair of 16-bit operands whose quotient is not a 16-bit
    value. *)
Definition quotient_overflow_machine : Machine :=
  {| Program := [ instr sample_codes SET_VARIABLE_DIVIDE 0 1 2 0;
                  instr sample_codes END_OF_PROGRAM 0 0 0 0 ];
     Integers := [0; -32768; -1];
     Bits := [] |}.

(** The Program [INCREMENT 0; END] with one integer. *)
Definition increment_machine (x : Z) : Machine :=
  {| Program := [ instr sample_codes INCREMENT_VARIABLE 0 0 0 0;
                  instr sample_codes END_OF_PROGRAM 0 0 0 0 ];
     Integers := [x];
     Bits := [] |}.

Definition is_WORD (z : Z) : Prop := 0 <= z <= 65535.

(** The fields of an instruction hold 16-bit values. *)
Definition BinOp_in_range (p : BinOp) : Prop :=
  is_WORD (op p) /\ is_WORD (name1 p) /\ is_WORD (name2 p)
  /\ is_WORD (name3 p) /\ is_SWORD (literal p).

(** The text of an instruction record: the ten bytes of the [BinOp], low
    byte of each field first, two lower-case hexadecimal digits a byte. *)
Definition hex_char (d : Z) : ascii :=
  ascii_of_N (Z.to_N (if d <? 10 then 48 + d else 87 + d)).

Definition hex_of_byte (b : Z) (tail : string) : string :=
  String (hex_char (b / 16)) (String (hex_char (b mod 16)) tail).

Definition hex_of_WORD (w : Z) (tail : string) : string :=
  hex_of_byte (w mod 256) (hex_of_byte (w / 256) tail).

Definition record_line (p : BinOp) : string :=
  hex_of_WORD (op p)
    (hex_of_WORD (name1 p)
       (hex_of_WORD (name2 p)
          (hex_of_WORD (name3 p)
             (hex_of_WORD (literal p mod 65536) nl)))).

Definition is_BYTE (z : Z) : Prop := 0 <= z <= 255.

(** Every literal of the Program is a 16-bit value, as the [SWORD] field
    that holds it. *)
Definition literals_in_range (P : list BinOp) : Prop :=
  Forall (fun p => is_SWORD (literal p)) P.

(** The first [n] characters of a string. *)
Fixpoint string_take (n : nat) (s : string) : string :=
  match n, s with
  | S k, String c s' => String c (string_take k s')
  | _, _ => EmptyString
  end.

(** [toupper] on every character of a string. *)
Definition toupper (c : Z) : Z :=
  if (97 <=? c) && (c <=? 122) then c - 32 else c.

Fixpoint upper_case (s : string) : string :=
  match s with
  | EmptyString => EmptyString
  | String c s' =>
      String (ascii_of_N (Z.to_N (toupper (char_code c)))) (upper_case s')
  end.

(** ** The pins: initPins, getInputs, setOutputs *)

(** The calls made to the wiringPi library, in the order in which they
    are made. *)
Inductive Mode : Type := INPUT | OUTPUT.

Inductive GpioCall : Type :=
  | wiringPiSetup
  | pinMode (pin : Z) (mode : Mode)
  | digitalWrite (pin : Z) (value : Z).

(** The eight pins with the names of their two address variables, as the
    eight lines of each of the three routines list them. *)
Definition gpio_pins : list (Z * string * string) :=
  [ (0, "GPI0", "GPO0"); (1, "GPI1", "GPO1"); (2, "GPI2", "GPO2");
    (3, "GPI3", "GPO3"); (4, "GPI4", "GPO4"); (5, "GPI5", "GPO5");
    (6, "GPI6", "GPO6"); (7, "GPI7", "GPO7") ]%string.

(** The value of a global [int]; zero before anything is assigned. *)
Definition global (pins : gmap string Z) (name : string) : Z :=
  default 0 (pins !! name).

(** [if (GPIx > 0) pinMode (x, INPUT); else if (GPOx > 0) pinMode(x, OUTPUT);] *)
Definition init_pin (pins : gmap string Z) (pin : Z * string * string)
  : list GpioCall :=
  let '(k, gi, go) := pin in
  if 0 <? global pins gi then [pinMode k INPUT]
  else if 0 <? global pins go then [pinMode k OUTPUT]
  else [].

Definition initPins (pins : gmap string Z) : list GpioCall :=
  flat_map (init_pin pins) gpio_pins.

(** [if (GPIx > 0) Bits[GPIx] = digitalRead(x);] with [digitalRead] the
    levels of the pins at the time of the call; [None] is a write
    outside [Bits]. *)
Definition read_input (digitalRead : Z -> Z) (pins : gmap string Z)
    (om : option Machine) (pin : Z * string * string) : option Machine :=
  let '(k, gi, _) := pin in
  m ← om;
  if 0 <? global pins gi then
    a ← wr (Bits m) (global pins gi) (to_BYTE (digitalRead k));
    Some (set_Bits m a)
  else Some m.

Definition getInputs (digitalRead : Z -> Z) (pins : gmap string Z)
    (m : Machine) : option Machine :=
  foldl (read_input digitalRead pins) (Some m) gpio_pins.

(** [if (GPOx > 0) digitalWrite(x, Bits[GPOx]);]; [None] is a read
    outside [Bits]. *)
Definition write_output (pins : gmap string Z) (m : Machine)
    (calls : option (list GpioCall)) (pin : Z * string * string)
  : option (list GpioCall) :=
  let '(k, _, go) := pin in
  cs ← calls;
  if 0 <? global pins go then
    b ← rd (Bits m) (global pins go);
    Some (cs ++ [digitalWrite k b])
  else Some cs.

Definition setOutputs (pins : gmap string Z) (m : Machine)
  : option (list GpioCall) :=
  foldl (write_output pins m) (Some []) gpio_pins.

(** ** main *)

(** [memset(Integers, 0, sizeof(Integers)); memset(Bits, 0, sizeof(Bits));] *)
Definition clear_banks (m : Machine) : Machine :=
  {| Program := Program m;
     Integers := replicate (length (Integers m)) 0;
     Bits := replicate (length (Bits m)) 0 |}.

(** [main] up to its endless loop: the calls made to wiringPi, and the
    machine and the pin variables the loop starts with.  The pins are set
    up before [Disassemble] is called.  What is printed is left out, and
    so is a failure of [wiringPiSetup].  A wrong number of arguments
    returns -1 as [exit(-1)] does. *)
Definition main_startup (T : IntCodes) (argc : Z)
    (file : option (list string)) (m : Machine)
  : list GpioCall * Result (Machine * gmap string Z) :=
  if argc =? 2 then
    match LoadProgram m file with
    | Ok (m1, pins) =>
        let m2 := clear_banks m1 in
        let calls := wiringPiSetup :: initPins pins in
        match snd (Disassemble T m2) with
        | Finished => (calls, Ok (m2, pins))
        | ExitFailure => (calls, Exit)
        | UndefinedBehaviour => (calls, Crash)
        end
    | Exit => ([], Exit)
    | Crash => ([], Crash)
    end
  else ([], Exit).

(** One turn of the loop of [main]: [getInputs(); InterpretOneCycle();
    setOutputs(); sleep(1);], the pause left out. *)
Definition scan (T : IntCodes) (fuel : nat) (digitalRead : Z -> Z)
    (pins : gmap string Z) (m : Machine)
  : Outcome (Machine * list GpioCall) :=
  match getInputs digitalRead pins m with
  | None => Undefined
  | Some m1 =>
      match InterpretOneCycle T fuel m1 with
      | Returned m2 =>
          match setOutputs pins m2 with
          | Some calls => Returned (m2, calls)
          | None => Undefined
          end
      | Undefined => Undefined
      | OutOfFuel => OutOfFuel
      end
  end.

(** The first [n] turns of the loop; [digitalRead i] gives the levels of
    the pins in turn [i]. *)
Fixpoint scans (T : IntCodes) (fuel : nat) (digitalRead : nat -> Z -> Z)
    (pins : gmap string Z) (n : nat) (m : Machine)
  : Outcome (Machine * list GpioCall) :=
  match n with
  | O => Returned (m, [])
  | S k =>
      match scans T fuel digitalRead pins k m with
      | Returned (m1, calls) =>
          match scan T fuel (digitalRead k) pins m1 with
          | Returned (m2, calls') => Returned (m2, calls ++ calls')
          | Undefined => Undefined
          | OutOfFuel => OutOfFuel
          end
      | r => r
      end
  end.

(** The pin number and the two addresses of an entry of [gpio_pins]. *)
Definition pin_number (pin : Z * string * string) : Z := fst (fst pin).
Definition input_address (pins : gmap string Z) (pin : Z * string * string)
  : Z := global pins (snd (fst pin)).
Definition output_address (pins : gmap string Z) (pin : Z * string * string)
  : Z := global pins (snd pin).

(** A machine with room for one instruction. *)
Definition one_slot_machine : Machine :=
  {| Program := [zero_BinOp]; Integers := [0]; Bits := [0] |}.

(** Pin variables with pin 1 an input at address 1, pin 2 an output at
    address 2 and pin 3 named both ways, at the addresses 3 and 1. *)
Definition wired_pins : gmap string Z :=
  <["GPI1"%string := 1]> (<["GPO2"%string := 2]>
    (<["GPI3"%string := 3]> (<["GPO3"%string := 1]> init_pins))).

(** A machine with four bits and the one-instruction Program [END]. *)
Definition four_bit_machine : Machine :=
  {| Program := [instr sample_codes END_OF_PROGRAM 0 0 0 0];
     Integers := [0];
     Bits := [0; 0; 1; 0] |}.

(** The levels of the pins: pin 1 high, the others low. *)
Definition pin_1_high (pin : Z) : Z := if pin =? 1 then 1 else 0.

(** The file with the header, the record of the one instruction END and
    the ["$$bits"] line; and the same with a record of opcode 0 first. *)
Definition END_file : option (list string) :=
  Some [ text_line "$$LDcode";
         record_line (instr sample_codes END_OF_PROGRAM 0 0 0 0);
         text_line "$$bits" ].

Definition unknown_opcode_file : option (list string) :=
  Some [ text_line "$$LDcode"; record_line zero_BinOp;
         record_line (instr sample_codes END_OF_PROGRAM 0 0 0 0);
         text_line "$$bits" ].

(** * Properties *)

(** ** The opcode table *)

Lemma find_code (T : IntCodes) (l : list Opcode) (o : Opcode) :
  NoDup (map (code T) l) -> o ∈ l ->
  find (fun o' => code T o' =? code T o) l = Some o.
Proof.
  induction l as [|a l IH]; simpl; intros Hnd Hin.
  - by apply elem_of_nil in Hin.
  - apply NoDup_cons in Hnd as [Hna Hnd].
    destruct (Z.eqb_spec (code T a) (code T o)) as [Heq|Hne].
    + apply elem_of_cons in Hin as [->|Hin]; [done|].
      exfalso. apply Hna. rewrite Heq.
      apply list_elem_of_fmap. by exists o.
    + apply elem_of_cons in Hin as [->|Hin]; [done|]. by apply IH.
Qed.

Lemma all_opcodes_complete (o : Opcode) : o ∈ all_opcodes.
Proof. destruct o; unfold all_opcodes; set_solver. Qed.

Lemma classify_code (T : IntCodes) (o : Opcode) :
  distinct_codes T -> classify T (code T o) = Some o.
Proof.
  intros Hd. apply find_code; [exact Hd | apply all_opcodes_complete].
Qed.

Lemma classify_Some (T : IntCodes) (v : Z) (o : Opcode) :
  classify T v = Some o -> code T o = v.
Proof.
  unfold classify. intros H. apply find_some in H as [_ H]. lia.
Qed.

Lemma classify_None (T : IntCodes) (v : Z) :
  classify T v = None <-> ~ known_op T v.
Proof.
  unfold classify, known_op. split.
  - intros H [o <-].
    pose proof (find_none _ _ H o) as Hn. simpl in Hn.
    rewrite Z.eqb_refl in Hn.
    assert (In o all_opcodes) by (apply list_elem_of_In, all_opcodes_complete).
    by specialize (Hn ltac:(assumption)).
  - intros Hn. destruct (find _ _) as [o|] eqn:E; [|done].
    exfalso. apply Hn. exists o. apply find_some in E as [_ E]. lia.
Qed.

Lemma sample_codes_distinct : distinct_codes sample_codes.
Proof.
  unfold distinct_codes.
  apply (bool_decide_unpack (NoDup (map (code sample_codes) all_opcodes))).
  vm_compute. exact I.
Qed.

(** ** InterpretOneCycle: one instruction *)

Arguments body : simpl never.
Arguments cycle_from : simpl never.

Lemma cycle_from_S (T : IntCodes) (k : nat) (m : Machine) (pc : Z) :
  cycle_from T (S k) m pc =
    match body T m pc with
    | Break m' pc' => cycle_from T k m' (pc' + 1)
    | Return m' => Returned m'
    | Undef => Undefined
    end.
Proof. reflexivity. Qed.

Lemma wr_ok {A : Type} (a : list A) (i : Z) (v : A) :
  0 <= i < Z.of_nat (length a) -> wr a i v = Some (<[Z.to_nat i := v]> a).
Proof.
  intros H. unfold wr.
  destruct (Z.leb_spec 0 i); [|lia].
  destruct (Z.ltb_spec i (Z.of_nat (length a))); [done|lia].
Qed.

Lemma rd_insert_eq {A : Type} (a : list A) (i : Z) (v : A) :
  0 <= i < Z.of_nat (length a) -> rd (<[Z.to_nat i := v]> a) i = Some v.
Proof.
  intros H. unfold rd. destruct (Z.ltb_spec i 0); [lia|].
  apply list_lookup_insert_eq. lia.
Qed.

Lemma rd_Some_range {A : Type} (a : list A) (i : Z) (v : A) :
  rd a i = Some v -> 0 <= i < Z.of_nat (length a).
Proof.
  unfold rd. destruct (Z.ltb_spec i 0); [done|].
  intros Hl%lookup_lt_Some. lia.
Qed.

Lemma rd_in_range {A : Type} (a : list A) (i : Z) :
  0 <= i < Z.of_nat (length a) -> exists v, rd a i = Some v.
Proof.
  intros H. unfold rd. destruct (Z.ltb_spec i 0); [lia|].
  apply lookup_lt_is_Some. lia.
Qed.

Lemma gtb_ltb (x y : Z) : (x >? y) = (y <? x).
Proof. apply Z.gtb_ltb. Qed.

Lemma to_SWORD_range (z : Z) : is_SWORD (to_SWORD z).
Proof.
  unfold is_SWORD, to_SWORD.
  pose proof (Z.mod_pos_bound (z + 32768) 65536 ltac:(lia)). lia.
Qed.

Lemma to_SWORD_congruent (z : Z) : (to_SWORD z - z) mod 65536 = 0.
Proof.
  unfold to_SWORD.
  replace ((z + 32768) mod 65536 - 32768 - z)
    with (- ((z + 32768) / 65536) * 65536)
    by (pose proof (Z.div_mod (z + 32768) 65536 ltac:(lia)); lia).
  apply Z.mod_mul. lia.
Qed.

Lemma to_SWORD_id (z : Z) : is_SWORD z -> to_SWORD z = z.
Proof.
  unfold is_SWORD, to_SWORD. intros H.
  rewrite Z.mod_small by lia. lia.
Qed.

Lemma quot_SWORD (x y : Z) :
  is_SWORD x -> is_SWORD y -> y <> 0 -> ~ (x = -32768 /\ y = -1) ->
  is_SWORD (x ÷ y).
Proof.
  unfold is_SWORD. intros Hx Hy Hy0 Hne.
  pose proof (Z.quot_rem' x y) as Hq.
  pose proof (Z.rem_bound_abs x y Hy0) as Hr.
  assert (Habs : Z.abs (x ÷ y) <= Z.abs x).
  { destruct (Z.eq_dec x 0) as [->|Hx0]; [by rewrite Z.quot_0_l|].
    rewrite <- Z.quot_abs by done.
    apply Z.quot_le_upper_bound; [lia|].
    nia. }
  assert (x ÷ y <> 32768) by (intros Hq'; rewrite Hq' in Hq; lia).
  lia.
Qed.

Lemma arith_ok (f : Z -> Z -> Z) (m : Machine) (pc : Z) (p : BinOp) (x y : Z) :
  rd (Integers m) (name2 p) = Some x ->
  rd (Integers m) (name3 p) = Some y ->
  0 <= name1 p < Z.of_nat (length (Integers m)) ->
  arith f m pc p =
    Break (set_Integers m
             (<[Z.to_nat (name1 p) := to_SWORD (f x y)]> (Integers m))) pc.
Proof.
  intros Hx Hy Hd. unfold arith, store_int. by rewrite Hx, Hy, wr_ok.
Qed.

(** The [switch] under a numbering with pairwise distinct labels. *)
Section DistinctLabels.

Context (T : IntCodes) (Hd : distinct_codes T).

Lemma body_fetch (m : Machine) (pc : Z) (p : BinOp) (o : Opcode) :
  rd (Program m) pc = Some p -> op p = code T o ->
  body T m pc =
    match o with
    | SET_BIT => store_bit m pc (name1 p) 1
    | CLEAR_BIT => store_bit m pc (name1 p) 0
    | COPY_BIT_TO_BIT =>
        match rd (Bits m) (name2 p) with
        | Some b => store_bit m pc (name1 p) b
        | None => Undef
        end
    | SET_VARIABLE_TO_LITERAL => store_int m pc (name1 p) (literal p)
    | SET_VARIABLE_TO_VARIABLE =>
        match rd (Integers m) (name2 p) with
        | Some x => store_int m pc (name1 p) x
        | None => Undef
        end
    | INCREMENT_VARIABLE =>
        match rd (Integers m) (name1 p) with
        | Some x => store_int m pc (name1 p) (to_SWORD (x + 1))
        | None => Undef
        end
    | SET_VARIABLE_ADD => arith Z.add m pc p
    | SET_VARIABLE_SUBTRACT => arith Z.sub m pc p
    | SET_VARIABLE_MULTIPLY => arith Z.mul m pc p
    | SET_VARIABLE_DIVIDE =>
        match rd (Integers m) (name3 p) with
        | Some y => if y =? 0 then Break m pc else arith Z.quot m pc p
        | None => Undef
        end
    | IF_BIT_SET =>
        match rd (Bits m) (name1 p) with
        | Some b => jump_unless (negb (b =? 0)) m pc p
        | None => Undef
        end
    | IF_BIT_CLEAR =>
        match rd (Bits m) (name1 p) with
        | Some b => jump_unless (b =? 0) m pc p
        | None => Undef
        end
    | IF_VARIABLE_LES_LITERAL =>
        match rd (Integers m) (name1 p) with
        | Some x => jump_unless (x <? literal p) m pc p
        | None => Undef
        end
    | IF_VARIABLE_EQUALS_VARIABLE =>
        match rd (Integers m) (name1 p), rd (Integers m) (name2 p) with
        | Some x, Some y => jump_unless (x =? y) m pc p
        | _, _ => Undef
        end
    | IF_VARIABLE_GRT_VARIABLE =>
        match rd (Integers m) (name1 p), rd (Integers m) (name2 p) with
        | Some x, Some y => jump_unless (x >? y) m pc p
        | _, _ => Undef
        end
    | ELSE => Break m (name3 p)
    | END_OF_PROGRAM => Return m
    end.
Proof.
  intros Hf Ho. unfold body. rewrite Hf, Ho, (classify_code T o Hd).
  by destruct o.
Qed.

(** The loop on a two-instruction program whose first instruction is not
    a jump: the instruction, then END_OF_PROGRAM. *)
Lemma cycle_two (m m' : Machine) (i e : BinOp) :
  Program m = [i; e] -> op e = code T END_OF_PROGRAM ->
  body T m 0 = Break m' 0 -> Program m' = Program m ->
  InterpretOneCycle T 2 m = Returned m'.
Proof.
  intros HP He Hb HP'. unfold InterpretOneCycle.
  rewrite cycle_from_S, Hb, cycle_from_S.
  assert (Hf : rd (Program m') (0 + 1) = Some e) by (by rewrite HP', HP).
  by rewrite (body_fetch m' (0 + 1) e END_OF_PROGRAM Hf He).
Qed.

(** The steps of the conditional instructions and of ELSE, and the two
    runs of [IF_BIT_SET bit0, target 1; SET_BIT bit1; END]. *)
Lemma conditional_jump_steps :
  (forall (m : Machine) (pc : Z) (p : BinOp) (o : Opcode) (c : bool),
      rd (Program m) pc = Some p -> op p = code T o ->
      tested o m p = Some c ->
      body T m pc = Break m (if c then pc else name3 p) /\
      forall fuel : nat,
        cycle_from T (S fuel) m pc =
        cycle_from T fuel m (if c then pc + 1 else name3 p + 1))
  /\ (forall (m : Machine) (pc : Z) (p : BinOp),
      rd (Program m) pc = Some p -> op p = code T ELSE ->
      body T m pc = Break m (name3 p) /\
      forall fuel : nat,
        cycle_from T (S fuel) m pc = cycle_from T fuel m (name3 p + 1))
  /\ (forall (m : Machine) (bit0 bit1 : Z) (bits : list Z),
      Program m = [ instr T IF_BIT_SET 0 0 1 0; instr T SET_BIT 1 0 0 0;
                    instr T END_OF_PROGRAM 0 0 0 0 ] ->
      Bits m = bit0 :: bit1 :: bits ->
      (bit0 = 0 -> InterpretOneCycle T 2 m = Returned m) /\
      (bit0 <> 0 ->
       InterpretOneCycle T 3 m = Returned (set_Bits m (bit0 :: 1 :: bits)))).
Proof.
  split; [|split].
  - intros m pc p o c Hf Ho Ht.
    assert (Hb : body T m pc = Break m (if c then pc else name3 p)).
    { rewrite (body_fetch m pc p o Hf Ho).
      destruct o; simpl in Ht; try discriminate;
        repeat match type of Ht with
               | context [rd ?a ?i] => destruct (rd a i); simpl in Ht; try discriminate
               end;
        injection Ht as <-; unfold jump_unless; rewrite ?gtb_ltb;
        match goal with |- context [if ?b then _ else _] => by destruct b end. }
    split; [exact Hb|]. intros fuel. rewrite cycle_from_S, Hb. by destruct c.
  - intros m pc p Hf Ho.
    assert (Hb : body T m pc = Break m (name3 p))
      by (by rewrite (body_fetch m pc p ELSE Hf Ho)).
    split; [exact Hb|]. intros fuel. by rewrite cycle_from_S, Hb.
  - intros m bit0 bit1 bits HP HB.
    assert (H0 : rd (Program m) 0 = Some (instr T IF_BIT_SET 0 0 1 0))
      by (by rewrite HP).
    assert (H1 : rd (Program m) 1 = Some (instr T SET_BIT 1 0 0 0))
      by (by rewrite HP).
    assert (H2 : rd (Program m) 2 = Some (instr T END_OF_PROGRAM 0 0 0 0))
      by (by rewrite HP).
    split; intros Hb.
    + unfold InterpretOneCycle. rewrite cycle_from_S.
      rewrite (body_fetch m 0 _ IF_BIT_SET H0 eq_refl).
      rewrite HB, Hb. simpl. rewrite cycle_from_S.
      by rewrite (body_fetch m (1 + 1) _ END_OF_PROGRAM H2 eq_refl).
    + unfold InterpretOneCycle. rewrite cycle_from_S.
      rewrite (body_fetch m 0 _ IF_BIT_SET H0 eq_refl).
      rewrite HB. simpl.
      destruct (Z.eqb_spec bit0 0) as [|_]; [done|].
      simpl. rewrite cycle_from_S.
      rewrite (body_fetch m (0 + 1) _ SET_BIT H1 eq_refl).
      unfold store_bit. rewrite HB, wr_ok by (simpl; lia). simpl.
      rewrite cycle_from_S.
      match goal with
      | |- context [body T ?m' ?pc'] =>
          by rewrite (body_fetch m' pc' _ END_OF_PROGRAM H2 eq_refl)
      end.
Qed.

(** C1. A conditional instruction whose tested condition is false assigns
    operand 3 to [pc], and the increment of the loop resumes execution at
    operand 3 + 1; when the condition is true, execution goes on with the
    next instruction; ELSE makes the same assignment whatever the banks
    hold.  The program [IF_BIT_SET bit0, target 1; SET_BIT bit1; END]
    returns with the machine as it was when bit 0 is clear, bit 1 as it
    was among the rest; when bit 0 is set it returns with bit 1 holding
    1, and with bit 0, the bits behind bit 1, the integers and the
    Program as they were. *)
Theorem conditional_jump_convention :
  (forall (m : Machine) (pc : Z) (p : BinOp) (o : Opcode) (c : bool),
      rd (Program m) pc = Some p -> op p = code T o ->
      tested o m p = Some c ->
      body T m pc = Break m (if c then pc else name3 p) /\
      forall fuel : nat,
        cycle_from T (S fuel) m pc =
        cycle_from T fuel m (if c then pc + 1 else name3 p + 1))
  /\ (forall (m : Machine) (pc : Z) (p : BinOp),
      rd (Program m) pc = Some p -> op p = code T ELSE ->
      body T m pc = Break m (name3 p) /\
      forall fuel : nat,
        cycle_from T (S fuel) m pc = cycle_from T fuel m (name3 p + 1))
  /\ (forall (m : Machine) (bit0 bit1 : Z) (bits : list Z),
      Program m = [ instr T IF_BIT_SET 0 0 1 0; instr T SET_BIT 1 0 0 0;
                    instr T END_OF_PROGRAM 0 0 0 0 ] ->
      Bits m = bit0 :: bit1 :: bits ->
      (bit0 = 0 ->
       exists m' : Machine,
         InterpretOneCycle T 2 m = Returned m'
         /\ m' = m /\ rd (Bits m') 1 = Some bit1) /\
      (bit0 <> 0 ->
       exists m' : Machine,
         InterpretOneCycle T 3 m = Returned m'
         /\ rd (Bits m') 1 = Some 1
         /\ Bits m' = bit0 :: 1 :: bits
         /\ Integers m' = Integers m
         /\ Program m' = Program m)).
Proof.
  destruct conditional_jump_steps as (Hcond & Helse & Hprog).
  split; [exact Hcond|]. split; [exact Helse|].
  intros m bit0 bit1 bits HP HB.
  destruct (Hprog m bit0 bit1 bits HP HB) as [Hclear Hset]. split.
  - intros Hb. exists m. split; [by apply Hclear|]. split; [done|].
    by rewrite HB.
  - intros Hb. exists (set_Bits m (bit0 :: 1 :: bits)).
    split; [by apply Hset|]. by repeat split.
Qed.

(** The step of DIVIDE, for a nonzero and for a zero divisor. *)
Lemma divide_steps :
  (forall (m : Machine) (pc : Z) (p : BinOp) (x y : Z),
      rd (Program m) pc = Some p -> op p = code T SET_VARIABLE_DIVIDE ->
      rd (Integers m) (name2 p) = Some x ->
      rd (Integers m) (name3 p) = Some y ->
      0 <= name1 p < Z.of_nat (length (Integers m)) ->
      y <> 0 ->
      body T m pc =
        Break (set_Integers m
                 (<[Z.to_nat (name1 p) := to_SWORD (x ÷ y)]> (Integers m))) pc
      /\ (is_SWORD (x ÷ y) -> to_SWORD (x ÷ y) = x ÷ y)
      /\ (is_SWORD x -> is_SWORD y -> ~ (x = -32768 /\ y = -1) ->
          is_SWORD (x ÷ y)))
  /\ (forall (m : Machine) (pc : Z) (p : BinOp),
      rd (Program m) pc = Some p -> op p = code T SET_VARIABLE_DIVIDE ->
      rd (Integers m) (name3 p) = Some 0 ->
      body T m pc = Break m pc)
  /\ (forall (m : Machine) (dest a b : Z) (n : nat),
      Program m = [ instr T SET_VARIABLE_DIVIDE dest a b 0;
                    instr T END_OF_PROGRAM 0 0 0 0 ] ->
      rd (Integers m) b = Some 0 ->
      cycles T 2 n m = Returned m).
Proof.
  assert (Hzero : forall (m : Machine) (pc : Z) (p : BinOp),
             rd (Program m) pc = Some p -> op p = code T SET_VARIABLE_DIVIDE ->
             rd (Integers m) (name3 p) = Some 0 -> body T m pc = Break m pc).
  { intros m pc p Hf Ho Hy.
    by rewrite (body_fetch m pc p SET_VARIABLE_DIVIDE Hf Ho), Hy. }
  split; [|split].
  - intros m pc p x y Hf Ho Hx Hy Hdest Hy0.
    split; [|split].
    + rewrite (body_fetch m pc p SET_VARIABLE_DIVIDE Hf Ho), Hy.
      destruct (Z.eqb_spec y 0) as [|_]; [done|].
      by apply arith_ok.
    + apply to_SWORD_id.
    + intros Hsx Hsy Hne. by apply quot_SWORD.
  - exact Hzero.
  - intros m dest a b n HP Hb.
    induction n as [|n IH]; [done|].
    cbn [cycles].
    rewrite (cycle_two m m _ _ HP eq_refl); [exact IH| |done].
    apply (Hzero m 0 (instr T SET_VARIABLE_DIVIDE dest a b 0));
      [by rewrite HP|done|exact Hb].
Qed.

(** C3, as amended.  A DIVIDE instruction with a nonzero divisor leaves
    in [Integers[name1]] the quotient of [Integers[name2]] by
    [Integers[name3]], truncated towards zero and narrowed to the 16-bit
    cell: the exact quotient whenever that is a 16-bit value, which it is
    for all 16-bit operands but -32768 / -1; the other integers, the bits
    and the Program are as before.  With a zero divisor it changes
    nothing and goes on with the next instruction, and any number of
    cycles of the program [DIVIDE dest,a,b; END] with [Integers[b] = 0]
    return with the machine as it was, the destination among the rest. *)
Theorem divide_by_zero_leaves_destination :
  (forall (m : Machine) (pc : Z) (p : BinOp) (x y : Z),
      rd (Program m) pc = Some p -> op p = code T SET_VARIABLE_DIVIDE ->
      rd (Integers m) (name2 p) = Some x ->
      rd (Integers m) (name3 p) = Some y ->
      0 <= name1 p < Z.of_nat (length (Integers m)) ->
      y <> 0 ->
      (exists m' : Machine,
          body T m pc = Break m' pc
          /\ rd (Integers m') (name1 p) = Some (to_SWORD (x ÷ y))
          /\ Integers m'
               = <[Z.to_nat (name1 p) := to_SWORD (x ÷ y)]> (Integers m)
          /\ Bits m' = Bits m /\ Program m' = Program m)
      /\ (is_SWORD (x ÷ y) -> to_SWORD (x ÷ y) = x ÷ y)
      /\ (is_SWORD x -> is_SWORD y -> ~ (x = -32768 /\ y = -1) ->
          is_SWORD (x ÷ y)))
  /\ (forall (m : Machine) (pc : Z) (p : BinOp),
      rd (Program m) pc = Some p -> op p = code T SET_VARIABLE_DIVIDE ->
      rd (Integers m) (name3 p) = Some 0 ->
      body T m pc = Break m pc)
  /\ (forall (m : Machine) (dest a b : Z) (n : nat) (d : Z),
      Program m = [ instr T SET_VARIABLE_DIVIDE dest a b 0;
                    instr T END_OF_PROGRAM 0 0 0 0 ] ->
      rd (Integers m) b = Some 0 ->
      rd (Integers m) dest = Some d ->
      exists m' : Machine,
        cycles T 2 n m = Returned m'
        /\ m' = m /\ rd (Integers m') dest = Some d).
Proof.
  destruct divide_steps as (Hdiv & Hzero & Hcycles).
  split; [|split; [exact Hzero|]].
  - intros m pc p x y Hf Ho Hx Hy Hdest Hy0.
    destruct (Hdiv m pc p x y Hf Ho Hx Hy Hdest Hy0) as (Hb & Hid & Hr).
    split; [|by split].
    eexists. split; [exact Hb|]. cbn [set_Integers Integers Bits Program].
    split; [by apply rd_insert_eq|done].
  - intros m dest a b n d HP Hb Hdest. exists m.
    split; [by apply (Hcycles m dest a b n)|]. by split.
Qed.

(** The steps of ADD, SUBTRACT, MULTIPLY and INCREMENT. *)
Lemma arithmetic_steps :
  (forall (m : Machine) (pc : Z) (p : BinOp) (o : Opcode) (x y r : Z),
      rd (Program m) pc = Some p -> op p = code T o ->
      exact_result o x y = Some r ->
      rd (Integers m) (name2 p) = Some x ->
      rd (Integers m) (name3 p) = Some y ->
      0 <= name1 p < Z.of_nat (length (Integers m)) ->
      exists v : Z,
        body T m pc =
          Break (set_Integers m (<[Z.to_nat (name1 p) := v]> (Integers m))) pc
        /\ is_SWORD v /\ (v - r) mod 65536 = 0)
  /\ (forall (m : Machine) (pc : Z) (p : BinOp) (x : Z),
      rd (Program m) pc = Some p -> op p = code T INCREMENT_VARIABLE ->
      rd (Integers m) (name1 p) = Some x ->
      exists v : Z,
        body T m pc =
          Break (set_Integers m (<[Z.to_nat (name1 p) := v]> (Integers m))) pc
        /\ is_SWORD v /\ (v - (x + 1)) mod 65536 = 0)
  /\ (forall (m : Machine) (a : Z),
      Program m = [ instr T INCREMENT_VARIABLE a 0 0 0;
                    instr T END_OF_PROGRAM 0 0 0 0 ] ->
      rd (Integers m) a = Some 32767 ->
      InterpretOneCycle T 2 m =
        Returned (set_Integers m (<[Z.to_nat a := -32768]> (Integers m)))).
Proof.
  assert (Hinc : forall (m : Machine) (pc : Z) (p : BinOp) (x : Z),
             rd (Program m) pc = Some p -> op p = code T INCREMENT_VARIABLE ->
             rd (Integers m) (name1 p) = Some x ->
             body T m pc =
               Break (set_Integers m
                        (<[Z.to_nat (name1 p) := to_SWORD (x + 1)]>
                           (Integers m))) pc).
  { intros m pc p x Hf Ho Hx.
    rewrite (body_fetch m pc p INCREMENT_VARIABLE Hf Ho), Hx.
    unfold store_int. by rewrite wr_ok by (by eapply rd_Some_range). }
  split; [|split].
  - intros m pc p o x y r Hf Ho Hr Hx Hy Hdest.
    exists (to_SWORD r).
    split; [|split; [apply to_SWORD_range | apply to_SWORD_congruent]].
    rewrite (body_fetch m pc p o Hf Ho).
    destruct o; simpl in Hr; try discriminate; injection Hr as <-;
      by apply arith_ok.
  - intros m pc p x Hf Ho Hx. exists (to_SWORD (x + 1)).
    split; [by apply Hinc|].
    split; [apply to_SWORD_range | apply to_SWORD_congruent].
  - intros m a HP Ha.
    apply (cycle_two m _ _ _ HP eq_refl); [|done].
    rewrite (Hinc m 0 (instr T INCREMENT_VARIABLE a 0 0 0) 32767);
      [done|by rewrite HP|done|exact Ha].
Qed.

(** C6. ADD, SUBTRACT, MULTIPLY and INCREMENT leave in the destination
    cell, for the exact result [r] of the operation, the one 16-bit value
    that is congruent to [r] modulo 2^16, and leave the other integers,
    the bits and the Program as they were; after a cycle of the program
    [INCREMENT a; END] a cell that held 32767 holds -32768, whatever the
    machine. *)
Theorem arithmetic_wraps_modulo_2_16 :
  (forall (m : Machine) (pc : Z) (p : BinOp) (o : Opcode) (x y r : Z),
      rd (Program m) pc = Some p -> op p = code T o ->
      exact_result o x y = Some r ->
      rd (Integers m) (name2 p) = Some x ->
      rd (Integers m) (name3 p) = Some y ->
      0 <= name1 p < Z.of_nat (length (Integers m)) ->
      exists (v : Z) (m' : Machine),
        body T m pc = Break m' pc
        /\ rd (Integers m') (name1 p) = Some v
        /\ Integers m' = <[Z.to_nat (name1 p) := v]> (Integers m)
        /\ Bits m' = Bits m /\ Program m' = Program m
        /\ is_SWORD v /\ (v - r) mod 65536 = 0)
  /\ (forall (m : Machine) (pc : Z) (p : BinOp) (x : Z),
      rd (Program m) pc = Some p -> op p = code T INCREMENT_VARIABLE ->
      rd (Integers m) (name1 p) = Some x ->
      exists (v : Z) (m' : Machine),
        body T m pc = Break m' pc
        /\ rd (Integers m') (name1 p) = Some v
        /\ Integers m' = <[Z.to_nat (name1 p) := v]> (Integers m)
        /\ Bits m' = Bits m /\ Program m' = Program m
        /\ is_SWORD v /\ (v - (x + 1)) mod 65536 = 0)
  /\ (forall (m : Machine) (a : Z),
      Program m = [ instr T INCREMENT_VARIABLE a 0 0 0;
                    instr T END_OF_PROGRAM 0 0 0 0 ] ->
      rd (Integers m) a = Some 32767 ->
      exists m' : Machine,
        InterpretOneCycle T 2 m = Returned m'
        /\ rd (Integers m') a = Some (-32768)
        /\ Integers m' = <[Z.to_nat a := -32768]> (Integers m)
        /\ Bits m' = Bits m /\ Program m' = Program m).
Proof.
  destruct arithmetic_steps as (Harith & Hinc & Hprog).
  split; [|split].
  - intros m pc p o x y r Hf Ho Hr Hx Hy Hdest.
    destruct (Harith m pc p o x y r Hf Ho Hr Hx Hy Hdest) as (v & Hb & Hv).
    exists v. eexists. split; [exact Hb|].
    cbn [set_Integers Integers Bits Program].
    split; [by apply rd_insert_eq|].
    split; [done|]. split; [done|]. split; [done|]. exact Hv.
  - intros m pc p x Hf Ho Hx.
    destruct (Hinc m pc p x Hf Ho Hx) as (v & Hb & Hv).
    exists v. eexists. split; [exact Hb|].
    cbn [set_Integers Integers Bits Program].
    split; [apply rd_insert_eq; by eapply rd_Some_range|].
    split; [done|]. split; [done|]. split; [done|]. exact Hv.
  - intros m a HP Ha. eexists. split; [by apply Hprog|].
    cbn [set_Integers Integers Bits Program].
    split; [apply rd_insert_eq; by eapply rd_Some_range|]. by repeat split.
Qed.

End DistinctLabels.

(** C3, against the claim as worded: the destination does not become the
    quotient for the operands -32768 and -1.  The quotient is 32768,
    which no 16-bit cell holds, and the cycle of [DIVIDE 0,1,2; END]
    leaves -32768 in the destination. *)
Lemma divide_minimum_by_minus_one_wraps :
  rd (Integers quotient_overflow_machine) 1 = Some (-32768)
  /\ rd (Integers quotient_overflow_machine) 2 = Some (-1)
  /\ (-32768) ÷ (-1) = 32768
  /\ exists m' : Machine,
       InterpretOneCycle sample_codes 2 quotient_overflow_machine
         = Returned m'
       /\ rd (Integers m') 0 = Some (-32768)
       /\ rd (Integers m') 0 <> Some ((-32768) ÷ (-1)).
Proof.
  split; [reflexivity|]. split; [reflexivity|]. split; [reflexivity|].
  eexists. split; [vm_compute; reflexivity|].
  split; [reflexivity|discriminate].
Qed.

Lemma body_unknown_op (T : IntCodes) (m : Machine) (pc : Z) (p : BinOp) :
  rd (Program m) pc = Some p -> ~ known_op T (op p) ->
  body T m pc = Break m pc.
Proof.
  intros Hf Hn. apply classify_None in Hn. unfold body. by rewrite Hf, Hn.
Qed.

(** C5. With the sample numbering, the program whose first instruction has
    the opcode value 0, which no label carries, and whose second is
    END_OF_PROGRAM: the cycle steps over the first instruction and
    returns with the machine as it was, while [Disassemble] ends the
    process on the same instruction. *)
Theorem unknown_opcode_is_stepped_over :
  let m := {| Program := [ {| op := 0; name1 := 1; name2 := 2; name3 := 3;
                              literal := 4 |};
                           instr sample_codes END_OF_PROGRAM 0 0 0 0 ];
              Integers := [7; 7; 7; 7]; Bits := [1; 1; 1; 1] |} in
  ~ known_op sample_codes 0
  /\ InterpretOneCycle sample_codes 2 m = Returned m
  /\ snd (Disassemble sample_codes m) = ExitFailure.
Proof.
  split; [|split].
  - apply classify_None. reflexivity.
  - reflexivity.
  - reflexivity.
Qed.

(** Case analysis on every array access and every test of the goal. *)
Ltac case_accesses :=
  repeat match goal with
         | |- context [rd ?a ?i] => destruct (rd a i)
         | |- context [wr ?a ?i ?v] => destruct (wr a i v)
         | |- context [if ?c then _ else _] => destruct c
         end.

Lemma body_Program (T : IntCodes) (m : Machine) (pc : Z) :
  match body T m pc with
  | Break m' _ => Program m' = Program m
  | Return m' => m' = m
  | Undef => True
  end.
Proof.
  unfold body.
  destruct (rd (Program m) pc) as [p|]; [|done].
  destruct (classify T (op p)) as [o|]; [|done].
  destruct o; unfold arith, store_int, store_bit, jump_unless;
    case_accesses; done.
Qed.

Lemma cycle_from_Program (T : IntCodes) (fuel : nat) :
  forall (m m' : Machine) (pc : Z),
    cycle_from T fuel m pc = Returned m' -> Program m' = Program m.
Proof.
  induction fuel as [|k IH]; intros m m' pc; [done|].
  rewrite cycle_from_S. pose proof (body_Program T m pc) as Hb.
  destruct (body T m pc) as [m1 pc1|m1|]; [|by intros [= <-]; subst|done].
  intros H%IH. congruence.
Qed.

(** C8. A cycle that returns leaves the instruction array as it found
    it. *)
Theorem InterpretOneCycle_keeps_Program
    (T : IntCodes) (fuel : nat) (m m' : Machine) :
  InterpretOneCycle T fuel m = Returned m' -> Program m' = Program m.
Proof. apply cycle_from_Program. Qed.

(** ** InterpretOneCycle: termination *)

Lemma in_bank_spec (n : nat) (a : Z) :
  in_bank n a = true <-> 0 <= a < Z.of_nat n.
Proof. unfold in_bank. rewrite andb_true_iff, Z.leb_le, Z.ltb_lt. done. Qed.

Lemma forallb_lookup {A : Type} (f : A -> bool) (l : list A) (i : nat) (x : A) :
  forallb f l = true -> l !! i = Some x -> f x = true.
Proof.
  intros H Hl. rewrite forallb_forall in H. apply H.
  apply list_elem_of_In. by eapply list_elem_of_lookup_2.
Qed.

Lemma rd_lookup {A : Type} (a : list A) (i : Z) (x : A) :
  rd a i = Some x -> a !! Z.to_nat i = Some x.
Proof. unfold rd. by destruct (i <? 0). Qed.

Lemma forward_from_lookup (T : IntCodes) (P : list BinOp) :
  forall (k : Z) (i : nat) (p : BinOp),
    forward_from T k P = true -> P !! i = Some p -> jumps T p = true ->
    k + Z.of_nat i <= name3 p.
Proof.
  induction P as [|q P IH]; intros k i p Hf Hl Hj; [done|].
  simpl in Hf. apply andb_true_iff in Hf as [Hq Hf].
  destruct i as [|i]; simpl in Hl.
  - injection Hl as ->. rewrite Hj in Hq. simpl in Hq.
    apply Z.leb_le in Hq. lia.
  - specialize (IH (k + 1) i p Hf Hl Hj). lia.
Qed.

(** What the body does with an instruction whose addresses are in the
    banks: it returns, or it goes on with the arrays at their sizes and
    [pc] either kept, by an instruction other than END_OF_PROGRAM, or set
    to operand 3 by a jump. *)
Lemma body_defined (T : IntCodes) (m : Machine) (pc : Z) (p : BinOp) :
  rd (Program m) pc = Some p ->
  addresses_ok T (length (Integers m)) (length (Bits m)) p = true ->
  (exists m', body T m pc = Return m') \/
  (exists m' pc',
      body T m pc = Break m' pc'
      /\ Program m' = Program m
      /\ length (Integers m') = length (Integers m)
      /\ length (Bits m') = length (Bits m)
      /\ ((pc' = pc /\ is_END T p = false)
          \/ (pc' = name3 p /\ jumps T p = true))).
Proof.
  intros Hf Ha. unfold body. rewrite Hf.
  unfold addresses_ok, is_END, jumps in *.
  destruct (classify T (op p)) as [o|];
    [|right; eexists _, _; split; [done|]; repeat split; auto].
  destruct o; simpl;
    repeat match type of Ha with
           | (_ && _) = true => apply andb_true_iff in Ha as [Ha ?]
           end;
    repeat match goal with
           | H : in_bank _ _ = true |- _ => apply in_bank_spec in H
           end;
    unfold arith, store_int, store_bit, jump_unless;
    repeat match goal with
           | |- context [rd ?a ?i] =>
               let v := fresh "v" in
               let E := fresh "E" in
               destruct (rd_in_range a i ltac:(assumption)) as [v E];
               rewrite E
           end;
    repeat match goal with
           | |- context [if ?c then _ else _] => destruct c
           end;
    rewrite ?wr_ok by assumption;
    first [ left; eexists; reflexivity
          | right; eexists _, _; split; [reflexivity|]; simpl;
            rewrite ?length_insert; repeat split; auto ].
Qed.

Lemma well_formed_jump (T : IntCodes) (P : list BinOp) (i : nat) (p : BinOp) :
  well_formed T P = true -> P !! i = Some p -> jumps T p = true ->
  name3 p + 1 < Z.of_nat (length P).
Proof.
  unfold well_formed. intros H Hl Hj.
  apply andb_true_iff in H as [H _]. apply andb_true_iff in H as [_ H].
  pose proof (forallb_lookup _ _ _ _ H Hl) as Hp. simpl in Hp.
  rewrite Hj in Hp. simpl in Hp.
  apply andb_true_iff in Hp as [_ Hp]. apply in_bank_spec in Hp. lia.
Qed.

Lemma well_formed_last (T : IntCodes) (P : list BinOp) (i : nat) (p : BinOp) :
  well_formed T P = true -> P !! i = Some p -> is_END T p = false ->
  (S i < length P)%nat.
Proof.
  unfold well_formed. intros H Hl He.
  apply andb_true_iff in H as [_ H].
  destruct (last P) as [e|] eqn:El; [|done].
  pose proof (lookup_lt_Some _ _ _ Hl) as Hlt.
  rewrite last_lookup in El.
  destruct (decide (i = pred (length P))) as [->|Hne]; [|lia].
  congruence.
Qed.

Lemma cycle_from_terminates (T : IntCodes) (P : list BinOp) (nI nB : nat) :
  well_formed T P = true ->
  forallb (addresses_ok T nI nB) P = true ->
  forward_only T P = true ->
  forall (n : nat) (m : Machine) (pc : Z),
    Program m = P -> length (Integers m) = nI -> length (Bits m) = nB ->
    0 <= pc < Z.of_nat (length P) ->
    Z.of_nat (length P) - pc <= Z.of_nat n ->
    exists (fuel : nat) (m' : Machine),
      (fuel <= n)%nat /\ cycle_from T fuel m pc = Returned m'.
Proof.
  intros Hwf Hads Hfw.
  induction n as [|n IH]; intros m pc HP HI HB Hpc Hn; [lia|].
  destruct (rd_in_range (Program m) pc ltac:(by rewrite HP)) as [p Hp].
  pose proof (rd_lookup _ _ _ Hp) as Hl. rewrite HP in Hl.
  assert (Ha : addresses_ok T (length (Integers m)) (length (Bits m)) p = true)
    by (rewrite HI, HB; by eapply forallb_lookup).
  destruct (body_defined T m pc p Hp Ha)
    as [[m' Hb] | (m' & pc' & Hb & HP' & HI' & HB' & Hnext)].
  - exists 1%nat, m'. split; [lia|]. by rewrite cycle_from_S, Hb.
  - assert (Hpc' : pc <= pc' /\ pc' + 1 < Z.of_nat (length P)).
    { destruct Hnext as [[-> He] | [-> Hj]].
      - pose proof (well_formed_last T P _ p Hwf Hl He). lia.
      - pose proof (well_formed_jump T P _ p Hwf Hl Hj).
        pose proof (forward_from_lookup T P 0 _ p Hfw Hl Hj). lia. }
    destruct (IH m' (pc' + 1)) as (fuel & m'' & Hfuel & Hrun);
      [congruence | congruence | congruence | lia | lia |].
    exists (S fuel), m''. split; [lia|]. by rewrite cycle_from_S, Hb.
Qed.

(** C2, as amended.  A cycle over a well-formed Program whose addresses
    lie in the banks and whose jumps all go forward returns, after at most
    as many instructions as the Program has. *)
Theorem forward_jumps_terminate (T : IntCodes) (m : Machine) :
  well_formed T (Program m) = true ->
  forallb (addresses_ok T (length (Integers m)) (length (Bits m)))
          (Program m) = true ->
  forward_only T (Program m) = true ->
  exists (fuel : nat) (m' : Machine),
    (fuel <= length (Program m))%nat
    /\ InterpretOneCycle T fuel m = Returned m'.
Proof.
  intros Hwf Hads Hfw. unfold InterpretOneCycle.
  apply (cycle_from_terminates T (Program m) _ _ Hwf Hads Hfw); try done.
  - unfold well_formed in Hwf. apply andb_true_iff in Hwf as [_ Hwf].
    destruct (Program m); [done|]. simpl. lia.
  - lia.
Qed.

Lemma looping_machine_loops (fuel : nat) (bits : list Z) :
  cycle_from sample_codes fuel
    (set_Bits looping_machine bits) 1 = OutOfFuel.
Proof.
  induction fuel as [|k IH]; [done|].
  rewrite cycle_from_S. exact IH.
Qed.

(** C2, as stated, fails: the Program [SET_BIT 0; ELSE 0; END] is
    well-formed, its addresses are in the banks, and its cycle never
    returns: the ELSE at index 1 sets [pc] to 0 and the increment of the
    loop brings it back to index 1. *)
Lemma backward_jump_never_returns :
  well_formed sample_codes (Program looping_machine) = true
  /\ forallb (addresses_ok sample_codes
                (length (Integers looping_machine))
                (length (Bits looping_machine)))
             (Program looping_machine) = true
  /\ ~ terminates sample_codes looping_machine.
Proof.
  split; [reflexivity|]. split; [reflexivity|].
  intros (fuel & m' & H). unfold InterpretOneCycle in H.
  destruct fuel as [|fuel]; [done|].
  rewrite cycle_from_S in H.
  change (cycle_from sample_codes fuel (set_Bits looping_machine [1]) 1
          = Returned m') in H.
  by rewrite looping_machine_loops in H.
Qed.

(** ** Disassemble *)

Lemma append_cons (c : ascii) (s t : string) :
  String c s +:+ t = String c (s +:+ t).
Proof. reflexivity. Qed.

Lemma append_nil (t : string) : EmptyString +:+ t = t.
Proof. reflexivity. Qed.

Lemma append_assoc (s t u : string) : (s +:+ t) +:+ u = s +:+ (t +:+ u).
Proof.
  induction s as [|c s IH]; [done|]. by rewrite !append_cons, IH.
Qed.

Lemma has_char_app (c : ascii) (s t : string) :
  has_char c (s +:+ t) = has_char c s || has_char c t.
Proof.
  induction s as [|c' s IH]; [done|].
  rewrite append_cons. simpl. rewrite IH. by rewrite orb_assoc.
Qed.

Lemma prefix_has_char (c : ascii) (needle : string) :
  forall s : string,
    String.prefix needle s = true -> has_char c needle = true ->
    has_char c s = true.
Proof.
  induction needle as [|a needle IH]; intros s Hp Hc; [done|].
  destruct s as [|b s]; [done|]. simpl in Hp.
  destruct (ascii_dec a b) as [->|_]; [|done].
  simpl in *. destruct (Ascii.eqb c b); [done|]. by apply IH.
Qed.

(** A string that lacks one of the characters of [needle] does not hold
    [needle]. *)
Lemma has_char_strstr (c : ascii) (needle s : string) :
  has_char c needle = true -> has_char c s = false ->
  strstr s needle = false.
Proof.
  intros Hn. induction s as [|a s IH]; intros Hs.
  - destruct needle; done.
  - cbn [strstr]. simpl in Hs. apply orb_false_iff in Hs as [Ha Hs].
    rewrite (IH Hs), orb_false_r.
    destruct (String.prefix needle (String a s)) eqn:Ep; [|done].
    pose proof (prefix_has_char c needle _ Ep Hn) as Hc.
    simpl in Hc. by rewrite Ha, Hs in Hc.
Qed.

Lemma hex_no_newline (d : Hexadecimal.uint) :
  has_char newline (HexadecimalString.NilZero.string_of_uint d) = false.
Proof.
  assert (H : forall d', has_char newline
                (HexadecimalString.NilEmpty.string_of_uint d') = false)
    by (induction d'; done).
  destruct d; first [done | apply H].
Qed.

Lemma dec_no_newline (d : Decimal.signed_int) :
  has_char newline (DecimalString.NilZero.string_of_int d) = false.
Proof.
  assert (H : forall d', has_char newline
                (DecimalString.NilEmpty.string_of_uint d') = false)
    by (induction d'; done).
  assert (H' : forall d', has_char newline
                (DecimalString.NilZero.string_of_uint d') = false)
    by (destruct d'; first [done | apply H]).
  destruct d; simpl; [apply H' | by rewrite H'].
Qed.

Lemma zeros_no_newline (n : nat) : has_char newline (zeros n) = false.
Proof. induction n; done. Qed.

Lemma fmt_x_no_newline (w : nat) (z : Z) :
  has_char newline (fmt_x w z) = false.
Proof.
  unfold fmt_x, pad0.
  by rewrite has_char_app, zeros_no_newline, hex_no_newline.
Qed.

Lemma fmt_d_no_newline (z : Z) : has_char newline (fmt_d z) = false.
Proof. apply dec_no_newline. Qed.

Lemma line_text_no_newline (T : IntCodes) (p : BinOp) :
  has_char newline (line_text T p) = false.
Proof.
  unfold line_text, dis_switch.
  destruct (classify T (op p)) as [o|]; [|done].
  destruct o; unfold arith_text, cond_text;
    by rewrite ?has_char_app, ?fmt_x_no_newline, ?fmt_d_no_newline.
Qed.

Lemma dis_lines_no_newline (T : IntCodes) (P : list BinOp) :
  forall pc : Z,
    Forall (fun l => has_char newline l = false) (dis_lines T pc P).
Proof.
  induction P as [|p P IH]; intros pc; simpl; constructor; [|apply IH].
  by rewrite !has_char_app, fmt_x_no_newline, line_text_no_newline.
Qed.

Lemma dis_lines_length (T : IntCodes) (P : list BinOp) :
  forall pc : Z, length (dis_lines T pc P) = length P.
Proof. induction P as [|p P IH]; intros pc; simpl; [done|]. by rewrite IH. Qed.

Lemma dis_lines_index (T : IntCodes) (P : list BinOp) :
  forall (pc : Z) (i : nat) (p : BinOp),
    P !! i = Some p ->
    dis_lines T pc P !! i =
      Some (fmt_x 3 (pc + Z.of_nat i) +:+ ": " +:+ line_text T p).
Proof.
  induction P as [|q P IH]; intros pc i p Hl; [done|].
  destruct i as [|i]; simpl in *.
  - injection Hl as ->. by rewrite Z.add_0_r.
  - rewrite (IH (pc + 1) i p Hl). do 3 f_equal. lia.
Qed.

Lemma listed_Line (T : IntCodes) (p : BinOp) :
  listed T p = true -> dis_switch T p = Line (line_text T p).
Proof.
  unfold listed, known_opb, is_END, line_text, dis_switch.
  destruct (classify T (op p)) as [o|]; [|done]. by destruct o.
Qed.

Lemma is_END_Last (T : IntCodes) (p : BinOp) :
  is_END T p = true -> dis_switch T p = Last (line_text T p).
Proof.
  unfold is_END, line_text, dis_switch.
  destruct (classify T (op p)) as [o|]; [|done]. by destruct o.
Qed.

Lemma Disassemble_from_lines (T : IntCodes) (pre : list BinOp) :
  forall (pc : Z) (e : BinOp) (rest : list BinOp),
    forallb (listed T) pre = true -> is_END T e = true ->
    Disassemble_from T pc (pre ++ e :: rest) =
      (unlines (dis_lines T pc (pre ++ [e])), Finished).
Proof.
  induction pre as [|p pre IH]; intros pc e rest Hpre He.
  - simpl. rewrite (is_END_Last T e He). unfold dis_line.
    by rewrite !append_assoc.
  - simpl in Hpre. apply andb_true_iff in Hpre as [Hp Hpre].
    simpl. rewrite (listed_Line T p Hp), (IH (pc + 1) e rest Hpre He).
    simpl. unfold dis_line. by rewrite !append_assoc.
Qed.

(** C9. For a Program whose first END_OF_PROGRAM comes after instructions
    with opcodes of the set, [Disassemble] returns after it has written
    one line for each instruction up to and with that END_OF_PROGRAM: the
    line of instruction [i] is its index, a colon and the text of its
    opcode, and holds no newline but the one that closes it.  The output
    is the same for any two machines with the same Program, whatever
    their banks. *)
Theorem Disassemble_one_line_per_instruction
    (T : IntCodes) (m : Machine) (pre : list BinOp) (e : BinOp)
    (rest : list BinOp) :
  Program m = pre ++ e :: rest ->
  forallb (listed T) pre = true ->
  is_END T e = true ->
  Disassemble T m = (unlines (dis_lines T 0 (pre ++ [e])), Finished)
  /\ length (dis_lines T 0 (pre ++ [e])) = S (length pre)
  /\ (forall (i : nat) (p : BinOp),
        (pre ++ [e]) !! i = Some p ->
        dis_lines T 0 (pre ++ [e]) !! i =
          Some (fmt_x 3 (Z.of_nat i) +:+ ": " +:+ line_text T p))
  /\ Forall (fun l => has_char newline l = false)
            (dis_lines T 0 (pre ++ [e]))
  /\ (forall m' : Machine,
        Program m' = Program m -> Disassemble T m' = Disassemble T m).
Proof.
  intros HP Hpre He. repeat split.
  - unfold Disassemble. rewrite HP. by apply Disassemble_from_lines.
  - rewrite dis_lines_length, length_app. simpl. lia.
  - intros i p Hl. by rewrite (dis_lines_index T _ 0 i p Hl).
  - apply dis_lines_no_newline.
  - intros m' HP'. unfold Disassemble. by rewrite HP'.
Qed.

(** ** The text of a record and its decoding *)

Lemma forallb_seqZ (f : Z -> bool) (n x : Z) :
  forallb f (seqZ 0 n) = true -> 0 <= x < n -> f x = true.
Proof.
  intros H Hx. rewrite forallb_forall in H. apply H.
  apply list_elem_of_In, elem_of_seqZ. lia.
Qed.

Lemma HexDigit_hex_char (d : Z) :
  0 <= d < 16 -> HexDigit (char_code (hex_char d)) = Some d.
Proof.
  intros Hd.
  apply (forallb_seqZ
           (fun d => bool_decide (HexDigit (char_code (hex_char d)) = Some d))
           16 d) in Hd; [by apply bool_decide_eq_true in Hd|].
  by vm_compute.
Qed.

Lemma hex_char_not_dollar (d : Z) :
  0 <= d < 16 -> Ascii.eqb "$" (hex_char d) = false.
Proof.
  intros Hd.
  apply (forallb_seqZ (fun d => negb (Ascii.eqb "$" (hex_char d))) 16 d) in Hd;
    [by apply negb_true_iff in Hd|].
  by vm_compute.
Qed.

Lemma lor_shiftl_add (a b n : Z) :
  0 <= n -> 0 <= a < 2 ^ n -> Z.lor a (Z.shiftl b n) = a + b * 2 ^ n.
Proof.
  intros Hn Ha. rewrite Z.shiftl_mul_pow2 by done.
  assert (Hland : Z.land a (b * 2 ^ n) = 0).
  { apply Z.bits_inj'. intros k Hk. rewrite Z.land_spec, Z.bits_0.
    destruct (Z_lt_dec k n) as [Hlt|Hge].
    - by rewrite Z.mul_pow2_bits_low, andb_false_r.
    - rewrite <- (Z.mod_small a (2 ^ n)) by done.
      by rewrite Z.mod_pow2_bits_high by lia. }
  by rewrite <- Z.lxor_lor, <- Z.add_nocarry_lxor.
Qed.

Lemma byte_of_digits (b : Z) :
  0 <= b < 256 -> to_BYTE (Z.lor (b mod 16) (Z.shiftl (b / 16) 4)) = b.
Proof.
  intros Hb. unfold to_BYTE.
  rewrite lor_shiftl_add by (try apply Z.mod_pos_bound; lia).
  change (2 ^ 4) with 16.
  rewrite Z.mod_small; pose proof (Z.div_mod b 16 ltac:(lia)); lia.
Qed.

Lemma WORD_of_its_bytes (w : Z) :
  0 <= w < 65536 -> WORD_of_bytes (w mod 256) (w / 256) = w.
Proof.
  intros Hw. unfold WORD_of_bytes.
  rewrite lor_shiftl_add by (try apply Z.mod_pos_bound; lia).
  change (2 ^ 8) with 256.
  pose proof (Z.div_mod w 256 ltac:(lia)). lia.
Qed.

Lemma hex_byte_0 (c1 c2 : ascii) (tail : string) :
  hex_byte (String c1 (String c2 tail)) 0 =
    (lo ← HexDigit (char_code c2);
     hi ← HexDigit (char_code c1);
     Some (to_BYTE (Z.lor lo (Z.shiftl hi 4)))).
Proof. reflexivity. Qed.

(** The byte at the head of a text is read back, and the bytes behind it
    are found two characters further. *)
Lemma hex_byte_head (b : Z) (tail : string) :
  0 <= b < 256 -> hex_byte (hex_of_byte b tail) 0 = Some b.
Proof.
  intros Hb. unfold hex_of_byte. rewrite hex_byte_0.
  rewrite !HexDigit_hex_char
    by (split; [apply Z.mod_pos_bound || apply Z.div_pos
               |apply Z.mod_pos_bound || apply Z.div_lt_upper_bound]; lia).
  simpl. by rewrite byte_of_digits.
Qed.

Lemma hex_byte_tail (b : Z) (tail : string) (i : nat) :
  hex_byte (hex_of_byte b tail) (S i) = hex_byte tail i.
Proof.
  unfold hex_byte, hex_of_byte, char_at.
  replace (2 * S i + 1)%nat with (S (S (2 * i + 1))) by lia.
  replace (2 * S i)%nat with (S (S (2 * i))) by lia.
  reflexivity.
Qed.

Lemma hex_byte_behind_WORD (w : Z) (tail : string) (i : nat) :
  hex_byte (hex_of_WORD w tail) (S (S i)) = hex_byte tail i.
Proof. unfold hex_of_WORD. by rewrite !hex_byte_tail. Qed.

Lemma decode_field (w : Z) (tail : string) (k : Z -> Z -> option BinOp) :
  0 <= w < 65536 ->
  (b0 ← hex_byte (hex_of_WORD w tail) 0;
   b1 ← hex_byte (hex_of_WORD w tail) 1; k b0 b1)
  = k (w mod 256) (w / 256).
Proof.
  intros Hw. unfold hex_of_WORD.
  rewrite hex_byte_head by (apply Z.mod_pos_bound; lia).
  rewrite hex_byte_tail, hex_byte_head; [done|].
  split; [apply Z.div_pos|apply Z.div_lt_upper_bound]; lia.
Qed.

Lemma to_SWORD_of_WORD (l : Z) : is_SWORD l -> to_SWORD (l mod 65536) = l.
Proof.
  unfold is_SWORD, to_SWORD. intros Hl.
  rewrite <- Zplus_mod_idemp_l, Z.mod_mod by lia.
  rewrite Zplus_mod_idemp_l.
  destruct (Z_lt_dec l 0).
  - replace (l + 32768) with (l + 32768 + 0 * 65536) by lia.
    rewrite Z.mod_small by lia. lia.
  - rewrite Z.mod_small by lia. lia.
Qed.

Lemma decode_record_line (p : BinOp) :
  BinOp_in_range p -> decode_BinOp (record_line p) = Some p.
Proof.
  destruct p as [o n1 n2 n3 l]. unfold BinOp_in_range, is_WORD. simpl.
  intros (Ho & H1 & H2 & H3 & Hl).
  unfold decode_BinOp, record_line. cbn [op name1 name2 name3 literal].
  assert (Hl' : 0 <= l mod 65536 < 65536) by (apply Z.mod_pos_bound; lia).
  rewrite !hex_byte_behind_WORD.
  rewrite !decode_field by lia.
  rewrite !WORD_of_its_bytes by lia.
  by rewrite to_SWORD_of_WORD.
Qed.

Lemma hex_of_byte_no_dollar (b : Z) (tail : string) :
  0 <= b < 256 ->
  has_char "$" (hex_of_byte b tail) = has_char "$" tail.
Proof.
  intros Hb. unfold hex_of_byte. cbn [has_char].
  rewrite !hex_char_not_dollar; [done|..].
  - apply Z.mod_pos_bound. lia.
  - split; [apply Z.div_pos|apply Z.div_lt_upper_bound]; lia.
Qed.

Lemma hex_of_WORD_no_dollar (w : Z) (tail : string) :
  0 <= w < 65536 ->
  has_char "$" (hex_of_WORD w tail) = has_char "$" tail.
Proof.
  intros Hw. unfold hex_of_WORD. rewrite !hex_of_byte_no_dollar; [done|..].
  - split; [apply Z.div_pos|apply Z.div_lt_upper_bound]; lia.
  - apply Z.mod_pos_bound. lia.
Qed.

(** Every instruction with 16-bit fields has a record that decodes to
    it. *)
Lemma record_line_record (p : BinOp) :
  BinOp_in_range p -> record_of (record_line p) p.
Proof.
  intros Hp. split; [|by apply decode_record_line].
  apply (has_char_strstr "$"); [done|].
  destruct Hp as (Ho & H1 & H2 & H3 & Hl). unfold is_WORD in *.
  unfold record_line. rewrite !hex_of_WORD_no_dollar; [done|try lia..].
  apply Z.mod_pos_bound. lia.
Qed.

(** ** LoadProgram: the instruction records *)

Lemma decode_first_byte (line : string) (p : BinOp) :
  decode_BinOp line = Some p -> exists b, hex_byte line 0 = Some b.
Proof.
  unfold decode_BinOp. destruct (hex_byte line 0) as [b|]; [|done]. eauto.
Qed.

Lemma load_code_record (pc : Z) (m : Machine) (line : string) (p : BinOp)
    (rest : list string) :
  record_of line p -> 0 <= pc < Z.of_nat (length (Program m)) ->
  load_code pc m (line :: rest) =
    load_code (pc + 1) (set_Program m (<[Z.to_nat pc := p]> (Program m))) rest.
Proof.
  intros [Hb Hd] Hpc. simpl. rewrite Hb.
  destruct (decode_first_byte line p Hd) as [b ->]. rewrite Hd.
  destruct (Z.leb_spec 0 pc); [|lia].
  destruct (Z.ltb_spec pc (Z.of_nat (length (Program m)))); [done|lia].
Qed.


Lemma load_code_records (recs : list string) :
  forall (ps : list BinOp) (pc : nat) (m : Machine),
    Forall2 record_of recs ps ->
    (pc + length recs <= length (Program m))%nat ->
    exists P' : list BinOp,
      length P' = length (Program m)
      /\ (forall (i : nat) (p : BinOp),
            ps !! i = Some p -> P' !! (pc + i)%nat = Some p)
      /\ (forall i : nat,
            (i < pc)%nat \/ (pc + length ps <= i)%nat ->
            P' !! i = Program m !! i)
      /\ forall tail : list string,
           load_code (Z.of_nat pc) m (recs ++ tail) =
             load_code (Z.of_nat (pc + length recs)) (set_Program m P') tail.
Proof.
  induction recs as [|line recs IH]; intros ps pc m Hrec Hlen.
  - apply Forall2_nil_inv_l in Hrec as ->. exists (Program m).
    split; [done|]. split; [done|]. split; [done|].
    intros tail. simpl. rewrite Nat.add_0_r. by destruct m.
  - apply Forall2_cons_inv_l in Hrec as (p & ps' & Hp & Hrec & ->).
    simpl in Hlen.
    destruct (IH ps' (S pc)
                (set_Program m (<[pc := p]> (Program m))) Hrec)
      as (P' & HlenP & Hin & Hout & Hrun).
    { simpl. rewrite length_insert. lia. }
    simpl in HlenP, Hout. rewrite length_insert in HlenP.
    exists P'. split; [done|]. split; [|split].
    + intros [|i] q Hq; simpl in Hq.
      * injection Hq as ->. rewrite Nat.add_0_r.
        rewrite Hout by lia. apply list_lookup_insert_eq. lia.
      * replace (pc + S i)%nat with (S pc + i)%nat by lia. by apply Hin.
    + intros i Hi. simpl in Hi. rewrite Hout by lia.
      apply list_lookup_insert_ne. lia.
    + intros tail. simpl app.
      rewrite (load_code_record _ m line p _ Hp) by lia.
      rewrite Nat2Z.id.
      replace (Z.of_nat pc + 1) with (Z.of_nat (S pc)) by lia.
      rewrite Hrun. simpl. do 2 f_equal. lia.
Qed.

Lemma load_code_bits (pc : Z) (m : Machine) (line : string)
    (rest : list string) :
  strstr line "$$bits" = true -> load_code pc m (line :: rest) = Ok (m, rest).
Proof. intros H. simpl. by rewrite H. Qed.



(** ** LoadProgram: the symbol lines *)

Lemma all_digits_has_char (c : ascii) (ds : string) :
  isdigit (char_code c) = false -> all_digits ds = true ->
  has_char c ds = false.
Proof.
  intros Hc. induction ds as [|a ds IH]; [done|].
  simpl. intros H. apply andb_true_iff in H as [Ha Hds].
  rewrite (IH Hds). destruct (Ascii.eqb_spec c a) as [->|_]; [|done].
  congruence.
Qed.

Lemma cycle_text_has_char (c : ascii) (ds eol : string) :
  isdigit (char_code c) = false ->
  has_char c (cycle_text EmptyString eol) = false ->
  all_digits ds = true ->
  has_char c (cycle_text ds eol) = false.
Proof.
  intros Hc Hlit Hds. unfold cycle_text in *.
  rewrite !has_char_app in *.
  rewrite (all_digits_has_char c ds Hc Hds). exact Hlit.
Qed.


Lemma cycle_line_has_char (c : ascii) (ds : string) :
  isdigit (char_code c) = false ->
  has_char c (cycle_line EmptyString) = false ->
  all_digits ds = true ->
  has_char c (cycle_line ds) = false.
Proof. apply (cycle_text_has_char c ds nl). Qed.

Lemma skip_leading_free (delim : ascii -> bool) (s : string) :
  free_of delim s = true -> skip_leading delim s = s.
Proof.
  destruct s as [|c s]; [done|]. simpl. intros H.
  apply andb_true_iff in H as [Hc _]. by destruct (delim c).
Qed.



Lemma token_free (delim : ascii -> bool) (s : string) :
  free_of delim s = true -> token delim s = (s, EmptyString).
Proof.
  induction s as [|c s IH]; [done|]. simpl. intros H.
  apply andb_true_iff in H as [Hc Hs]. rewrite (IH Hs).
  by destruct (delim c).
Qed.

Lemma token_delimited (delim : ascii -> bool) (s : string) (d : ascii)
    (t : string) :
  free_of delim s = true -> delim d = true ->
  token delim (s +:+ String d t) = (s, t).
Proof.
  intros Hs Hd. induction s as [|c s IH].
  - rewrite append_nil. simpl. by rewrite Hd.
  - simpl in Hs. apply andb_true_iff in Hs as [Hc Hs].
    rewrite append_cons. simpl. rewrite (IH Hs). by destruct (delim c).
Qed.

Lemma strtok_free (delim : ascii -> bool) (s : string) :
  free_of delim s = true -> s <> EmptyString ->
  strtok delim s = Some (s, EmptyString).
Proof.
  intros Hs Hne. unfold strtok. rewrite (skip_leading_free delim s Hs).
  destruct s as [|c s]; [done|]. by rewrite (token_free delim _ Hs).
Qed.

Lemma strtok_delimited (delim : ascii -> bool) (s : string) (d : ascii)
    (t : string) :
  free_of delim s = true -> s <> EmptyString -> delim d = true ->
  strtok delim (s +:+ String d t) = Some (s, t).
Proof.
  intros Hs Hne Hd. unfold strtok.
  assert (Hskip : skip_leading delim (s +:+ String d t) = s +:+ String d t).
  { destruct s as [|c s]; [done|]. rewrite append_cons. simpl in *.
    apply andb_true_iff in Hs as [Hc _]. by destruct (delim c). }
  rewrite Hskip.
  destruct (s +:+ String d t) as [|c u] eqn:E; [by destruct s|].
  by rewrite <- E, (token_delimited delim s d t Hs Hd).
Qed.



























(** ** The theorems at concrete inputs *)

(** The jump convention on the three-instruction program, with bit 0 clear and with bit 0 set. *)
Lemma conditional_jump_convention_witness :
  distinct_codes sample_codes
  /\ body sample_codes (jump_bias_machine 0) 0
       = Break (jump_bias_machine 0) 1
  /\ (exists m' : Machine,
        InterpretOneCycle sample_codes 2 (jump_bias_machine 0) = Returned m'
        /\ rd (Bits m') 1 = Some 0)
  /\ (exists m' : Machine,
        InterpretOneCycle sample_codes 3 (jump_bias_machine 1) = Returned m'
        /\ rd (Bits m') 1 = Some 1 /\ Bits m' = [1; 1]).
Proof.
  destruct (conditional_jump_convention sample_codes sample_codes_distinct)
    as (Hcond & _ & Hprog).
  split; [exact sample_codes_distinct|]. split; [|split].
  - apply (Hcond (jump_bias_machine 0) 0
             (instr sample_codes IF_BIT_SET 0 0 1 0) IF_BIT_SET false);
      reflexivity.
  - destruct (Hprog (jump_bias_machine 0) 0 0 [] eq_refl eq_refl)
      as [Hclear _].
    destruct (Hclear eq_refl) as (m' & Hrun & _ & Hbit).
    exists m'. by split.
  - destruct (Hprog (jump_bias_machine 1) 1 0 [] eq_refl eq_refl)
      as [_ Hset].
    destruct Hset as (m' & Hrun & Hbit & Hbits & _); [lia|].
    exists m'. by repeat split.
Defined.

(** The three-instruction program has forward jumps only and its cycle returns. *)
Lemma forward_jumps_terminate_witness :
  well_formed sample_codes (Program (jump_bias_machine 0)) = true
  /\ forward_only sample_codes (Program (jump_bias_machine 0)) = true
  /\ exists (fuel : nat) (m' : Machine),
       (fuel <= 3)%nat
       /\ InterpretOneCycle sample_codes fuel (jump_bias_machine 0)
            = Returned m'.
Proof.
  split; [reflexivity|]. split; [reflexivity|].
  apply (forward_jumps_terminate sample_codes (jump_bias_machine 0));
    reflexivity.
Defined.

(** 5 / 2 is stored as 2 over the 9 of the destination; seven cycles
    with the divisor 0 leave the 9. *)
Lemma divide_by_zero_leaves_destination_witness :
  distinct_codes sample_codes
  /\ (exists m' : Machine,
        body sample_codes (divide_machine 2) 0 = Break m' 0
        /\ rd (Integers m') 0 = Some 2 /\ Integers m' = [2; 5; 2])
  /\ (exists m' : Machine,
        cycles sample_codes 2 7 (divide_machine 0) = Returned m'
        /\ rd (Integers m') 0 = Some 9).
Proof.
  destruct (divide_by_zero_leaves_destination sample_codes
              sample_codes_distinct) as (Hdiv & _ & Hzero).
  split; [exact sample_codes_distinct|]. split.
  - destruct (Hdiv (divide_machine 2) 0
                (instr sample_codes SET_VARIABLE_DIVIDE 0 1 2 0) 5 2)
      as [(m' & Hb & Hcell & Hints & _) _];
      [reflexivity..|simpl; lia|lia|].
    exists m'. by repeat split.
  - destruct (Hzero (divide_machine 0) 0 1 2 7%nat 9 eq_refl eq_refl eq_refl)
      as (m' & Hrun & _ & Hcell).
    exists m'. by split.
Defined.


(** 32767 + 1 is stored as -32768. *)
Lemma arithmetic_wraps_modulo_2_16_witness :
  distinct_codes sample_codes
  /\ exists m' : Machine,
       InterpretOneCycle sample_codes 2 (increment_machine 32767)
         = Returned m'
       /\ rd (Integers m') 0 = Some (-32768) /\ Integers m' = [-32768].
Proof.
  destruct (arithmetic_wraps_modulo_2_16 sample_codes sample_codes_distinct)
    as (_ & _ & Hinc).
  split; [exact sample_codes_distinct|].
  destruct (Hinc (increment_machine 32767) 0 eq_refl eq_refl)
    as (m' & Hrun & Hcell & Hints & _).
  exists m'. by repeat split.
Defined.


(** The cycle of the three-instruction program with bit 0 set returns with the same Program. *)
Lemma InterpretOneCycle_keeps_Program_witness :
  InterpretOneCycle sample_codes 3 (jump_bias_machine 1)
    = Returned (set_Bits (jump_bias_machine 1) [1; 1])
  /\ Program (set_Bits (jump_bias_machine 1) [1; 1])
     = Program (jump_bias_machine 1).
Proof.
  split; [reflexivity|].
  apply (InterpretOneCycle_keeps_Program sample_codes 3
           (jump_bias_machine 1) (set_Bits (jump_bias_machine 1) [1; 1])).
  reflexivity.
Defined.

(** The three lines of the three-instruction program. *)
Lemma Disassemble_one_line_per_instruction_witness :
  Disassemble sample_codes (jump_bias_machine 0)
    = (unlines [ "000: unless (bits[000] set) jump 001+1";
                 "001: bits[001] := 1";
                 "002: <end of program>" ]%string, Finished).
Proof.
  apply (Disassemble_one_line_per_instruction sample_codes
           (jump_bias_machine 0)
           [ instr sample_codes IF_BIT_SET 0 0 1 0;
             instr sample_codes SET_BIT 1 0 0 0 ]
           (instr sample_codes END_OF_PROGRAM 0 0 0 0) []);
    reflexivity.
Defined.


(** * Further properties *)

(** ** InterpretOneCycle: the frame and the cell values *)

Lemma wr_Some {A : Type} (a a' : list A) (i : Z) (v : A) :
  wr a i v = Some a' ->
  0 <= i < Z.of_nat (length a) /\ a' = <[Z.to_nat i := v]> a.
Proof.
  unfold wr. destruct (Z.leb_spec 0 i); [|done].
  destruct (Z.ltb_spec i (Z.of_nat (length a))); [|done].
  intros [= <-]. split; [lia|done].
Qed.

Lemma rd_wr_other {A : Type} (a a' : list A) (i j : Z) (v : A) :
  wr a i v = Some a' -> j <> i -> rd a' j = rd a j.
Proof.
  intros [Hi ->]%wr_Some Hj. unfold rd.
  destruct (Z.ltb_spec j 0); [done|].
  apply list_lookup_insert_ne. lia.
Qed.

Lemma wr_length {A : Type} (a a' : list A) (i : Z) (v : A) :
  wr a i v = Some a' -> length a' = length a.
Proof. intros [_ ->]%wr_Some. apply length_insert. Qed.

(** Like [case_accesses], with the equations of the accesses kept. *)
Ltac case_accesses_eqn :=
  repeat match goal with
         | |- context [rd ?a ?i] =>
             let E := fresh "Erd" in destruct (rd a i) eqn:E
         | |- context [wr ?a ?i ?v] =>
             let E := fresh "Ewr" in destruct (wr a i v) eqn:E
         | |- context [if ?c then _ else _] => destruct c
         end.

Lemma body_sizes (T : IntCodes) (m m' : Machine) (pc pc' : Z) :
  body T m pc = Break m' pc' ->
  length (Integers m') = length (Integers m)
  /\ length (Bits m') = length (Bits m).
Proof.
  unfold body. destruct (rd (Program m) pc) as [p|]; [|done].
  destruct (classify T (op p)) as [o|]; [|by intros [= <- <-]].
  destruct o; unfold arith, store_int, store_bit, jump_unless;
    case_accesses_eqn; intros [= <- <-]; simpl;
    repeat match goal with
           | H : wr _ _ _ = Some _ |- _ => apply wr_length in H
           end; done.
Qed.

Lemma cycle_from_sizes (T : IntCodes) (fuel : nat) :
  forall (m m' : Machine) (pc : Z),
    cycle_from T fuel m pc = Returned m' ->
    length (Integers m') = length (Integers m)
    /\ length (Bits m') = length (Bits m).
Proof.
  induction fuel as [|k IH]; intros m m' pc; [done|].
  rewrite cycle_from_S.
  destruct (body T m pc) as [m1 pc1|m1|] eqn:Hb; [| |done].
  - apply body_sizes in Hb as [HI HB].
    intros [HI' HB']%IH. split; congruence.
  - pose proof (body_Program T m pc) as HP. rewrite Hb in HP. subst m1.
    by intros [= <-].
Qed.

(** X2. An instruction changes at most one cell, the one operand 1 names, and
    in one bank only; it changes neither the Program nor the size of a
    bank. *)
Theorem instruction_writes_one_cell
    (T : IntCodes) (m m' : Machine) (pc pc' : Z) (p : BinOp) :
  rd (Program m) pc = Some p ->
  body T m pc = Break m' pc' ->
  Program m' = Program m
  /\ length (Integers m') = length (Integers m)
  /\ length (Bits m') = length (Bits m)
  /\ (forall i : Z, i <> name1 p ->
        rd (Integers m') i = rd (Integers m) i
        /\ rd (Bits m') i = rd (Bits m) i)
  /\ (Integers m' = Integers m \/ Bits m' = Bits m).
Proof.
  intros Hf. unfold body. rewrite Hf.
  destruct (classify T (op p)) as [o|];
    [|intros [= <- <-]; repeat split; auto].
  destruct o; unfold arith, store_int, store_bit, jump_unless;
    case_accesses_eqn; intros [= <- <-]; simpl;
    repeat match goal with
           | H : wr _ _ _ = Some _ |- _ =>
               pose proof (wr_length _ _ _ _ H);
               pose proof (fun j => rd_wr_other _ _ _ j _ H);
               clear H
           end;
    repeat split; auto.
Qed.

Lemma rd_Forall {A : Type} (P : A -> Prop) (a : list A) (i : Z) (x : A) :
  Forall P a -> rd a i = Some x -> P x.
Proof.
  intros Ha Hx. apply rd_lookup in Hx. by eapply Forall_lookup_1.
Qed.

Lemma wr_Forall {A : Type} (P : A -> Prop) (a a' : list A) (i : Z) (v : A) :
  Forall P a -> P v -> wr a i v = Some a' -> Forall P a'.
Proof. intros Ha Hv [_ ->]%wr_Some. by apply Forall_insert. Qed.

Lemma body_cells (T : IntCodes) (m m' : Machine) (pc pc' : Z) :
  literals_in_range (Program m) ->
  Forall is_SWORD (Integers m) -> Forall is_BYTE (Bits m) ->
  body T m pc = Break m' pc' ->
  Forall is_SWORD (Integers m') /\ Forall is_BYTE (Bits m').
Proof.
  intros Hlit HI HB. unfold body.
  destruct (rd (Program m) pc) as [p|] eqn:Hf; [|done].
  pose proof (rd_Forall _ _ _ _ Hlit Hf) as Hl. simpl in Hl.
  destruct (classify T (op p)) as [o|]; [|by intros [= <- <-]].
  destruct o; unfold arith, store_int, store_bit, jump_unless;
    case_accesses_eqn; intros [= <- <-]; simpl;
    (split; [try done|try done]);
    try (eapply wr_Forall; [eassumption| |eassumption]);
    first [ apply to_SWORD_range
          | done
          | unfold is_BYTE; lia
          | by eapply rd_Forall ].
Qed.

Lemma cycle_from_cells (T : IntCodes) (fuel : nat) :
  forall (m m' : Machine) (pc : Z),
    literals_in_range (Program m) ->
    Forall is_SWORD (Integers m) -> Forall is_BYTE (Bits m) ->
    cycle_from T fuel m pc = Returned m' ->
    length (Integers m') = length (Integers m)
    /\ length (Bits m') = length (Bits m)
    /\ Forall is_SWORD (Integers m') /\ Forall is_BYTE (Bits m').
Proof.
  induction fuel as [|k IH]; intros m m' pc Hlit HI HB; [done|].
  rewrite cycle_from_S.
  destruct (body T m pc) as [m1 pc1|m1|] eqn:Hb; [| |done].
  - destruct (rd (Program m) pc) as [p|] eqn:Hf;
      [|by unfold body in Hb; rewrite Hf in Hb].
    pose proof (body_Program T m pc) as HP. rewrite Hb in HP.
    destruct (body_sizes T m m1 pc pc1 Hb) as [HlI HlB].
    destruct (body_cells T m m1 pc pc1 Hlit HI HB Hb) as [HI1 HB1].
    intros Hrun. apply IH in Hrun; [|by rewrite HP|done..].
    destruct Hrun as (? & ? & ? & ?). repeat split; [congruence..|done|done].
  - pose proof (body_Program T m pc) as HP. rewrite Hb in HP. subst m1.
    by intros [= <-].
Qed.

(** X3. A cycle that returns keeps the sizes of the two banks, and it keeps
    every integer cell a 16-bit value and every bit cell a byte when the
    literals of the Program are 16-bit values. *)
Theorem cycle_keeps_banks_well_typed
    (T : IntCodes) (fuel : nat) (m m' : Machine) :
  literals_in_range (Program m) ->
  Forall is_SWORD (Integers m) -> Forall is_BYTE (Bits m) ->
  InterpretOneCycle T fuel m = Returned m' ->
  length (Integers m') = length (Integers m)
  /\ length (Bits m') = length (Bits m)
  /\ Forall is_SWORD (Integers m') /\ Forall is_BYTE (Bits m').
Proof. apply cycle_from_cells. Qed.

(** ** Disassemble: the other two ways it ends *)

Lemma Disassemble_from_unknown (T : IntCodes) (pre : list BinOp) :
  forall (pc : Z) (bad : BinOp) (rest : list BinOp),
    forallb (listed T) pre = true -> classify T (op bad) = None ->
    Disassemble_from T pc (pre ++ bad :: rest) =
      (unlines (dis_lines T pc pre)
         +:+ fmt_x 3 (pc + Z.of_nat (length pre)) +:+ ": ", ExitFailure).
Proof.
  induction pre as [|p pre IH]; intros pc bad rest Hpre Hbad.
  - simpl. unfold dis_switch. rewrite Hbad.
    by rewrite append_nil, Z.add_0_r.
  - simpl in Hpre. apply andb_true_iff in Hpre as [Hp Hpre].
    cbn [app Disassemble_from]. rewrite (listed_Line T p Hp).
    rewrite (IH (pc + 1) bad rest Hpre Hbad).
    cbn [fst snd dis_lines unlines length]. unfold dis_line.
    replace (pc + Z.of_nat (S (length pre)))
      with (pc + 1 + Z.of_nat (length pre)) by lia.
    by rewrite !append_assoc.
Qed.

(** X4. An opcode outside the set ends the process in [Disassemble]: the
    instructions before it get their lines, the offending one only its
    index, and nothing behind it is looked at. *)
Theorem Disassemble_unknown_opcode_exits
    (T : IntCodes) (m : Machine) (pre : list BinOp) (bad : BinOp)
    (rest : list BinOp) :
  Program m = pre ++ bad :: rest ->
  forallb (listed T) pre = true ->
  ~ known_op T (op bad) ->
  Disassemble T m =
    (unlines (dis_lines T 0 pre)
       +:+ fmt_x 3 (Z.of_nat (length pre)) +:+ ": ", ExitFailure).
Proof.
  intros HP Hpre Hbad. apply classify_None in Hbad.
  unfold Disassemble. rewrite HP.
  by rewrite (Disassemble_from_unknown T pre 0 bad rest Hpre Hbad).
Qed.

Lemma Disassemble_from_no_END (T : IntCodes) (P : list BinOp) :
  forall pc : Z,
    forallb (listed T) P = true ->
    Disassemble_from T pc P = (unlines (dis_lines T pc P), UndefinedBehaviour).
Proof.
  induction P as [|p P IH]; intros pc HP; [done|].
  simpl in HP. apply andb_true_iff in HP as [Hp HP].
  cbn [Disassemble_from]. rewrite (listed_Line T p Hp), (IH (pc + 1) HP).
  cbn [fst snd dis_lines unlines]. unfold dis_line.
  by rewrite !append_assoc.
Qed.

(** X5. Without an END_OF_PROGRAM in the array, [Disassemble] writes a line
    for every instruction and then reads behind the array. *)
Theorem Disassemble_without_END_leaves_Program
    (T : IntCodes) (m : Machine) :
  forallb (listed T) (Program m) = true ->
  Disassemble T m =
    (unlines (dis_lines T 0 (Program m)), UndefinedBehaviour).
Proof. apply Disassemble_from_no_END. Qed.

(** ** HexDigit and the decoding of a record *)

Lemma HexDigit_spec (c d : Z) :
  HexDigit c = Some d <->
  (48 <= c <= 57 /\ d = c - 48)
  \/ (97 <= c <= 102 /\ d = c - 87)
  \/ (65 <= c <= 70 /\ d = c - 55).
Proof.
  unfold HexDigit, tolower, isdigit.
  destruct (Z.leb_spec 65 c), (Z.leb_spec c 90); simpl;
    repeat match goal with
           | |- context [?a <=? ?b] => destruct (Z.leb_spec a b); simpl
           end;
    (split; [intros [= <-]; lia | intros Hc; try f_equal; lia]).
Qed.

Lemma HexDigit_toupper (c : Z) : HexDigit (toupper c) = HexDigit c.
Proof.
  destruct (HexDigit c) as [d|] eqn:E.
  - apply HexDigit_spec. apply HexDigit_spec in E. unfold toupper.
    destruct (Z.leb_spec 97 c), (Z.leb_spec c 122); simpl; lia.
  - destruct (HexDigit (toupper c)) as [d|] eqn:E'; [|done].
    apply HexDigit_spec in E'.
    assert (HexDigit c = Some d); [|congruence].
    apply HexDigit_spec. unfold toupper in E'.
    destruct (Z.leb_spec 97 c), (Z.leb_spec c 122); simpl in E'; lia.
Qed.

(** X6. [HexDigit] takes the digits 0-9 and the letters a-f in either case,
    gives each its value below 16, and ends the process on every other
    character. *)
Theorem HexDigit_accepts_hex_digits (c : Z) :
  (forall d : Z,
      HexDigit c = Some d <->
      (48 <= c <= 57 /\ d = c - 48)
      \/ (97 <= c <= 102 /\ d = c - 87)
      \/ (65 <= c <= 70 /\ d = c - 55))
  /\ (forall d : Z, HexDigit c = Some d -> 0 <= d <= 15)
  /\ (HexDigit c = None <->
      ~ (48 <= c <= 57 \/ 97 <= c <= 102 \/ 65 <= c <= 70)).
Proof.
  split; [intros d; apply HexDigit_spec|]. split.
  - intros d Hd. apply HexDigit_spec in Hd. lia.
  - split.
    + intros Hn Hc.
      assert (exists d, HexDigit c = Some d) as [d Hd]; [|congruence].
      destruct Hc as [Hc|[Hc|Hc]]; eexists; apply HexDigit_spec; eauto.
    + intros Hn. destruct (HexDigit c) as [d|] eqn:E; [|done].
      apply HexDigit_spec in E. lia.
Qed.

Lemma hex_byte_range (line : string) (i : nat) (b : Z) :
  hex_byte line i = Some b -> 0 <= b < 256.
Proof.
  unfold hex_byte. intros H.
  apply bind_Some in H as (lo & _ & H).
  apply bind_Some in H as (hi & _ & [= <-]).
  apply Z.mod_pos_bound. lia.
Qed.

Lemma WORD_of_bytes_range (b0 b1 : Z) :
  0 <= b0 < 256 -> 0 <= b1 < 256 -> is_WORD (WORD_of_bytes b0 b1).
Proof.
  intros H0 H1. unfold WORD_of_bytes, is_WORD.
  rewrite lor_shiftl_add by lia. change (2 ^ 8) with 256. lia.
Qed.

(** X7. Whatever the text, an instruction that [LoadProgram] decodes has
    fields that fit the 16-bit members of [BinOp]. *)
Theorem decoded_fields_are_16_bit (line : string) (p : BinOp) :
  decode_BinOp line = Some p -> BinOp_in_range p.
Proof.
  unfold decode_BinOp.
  repeat match goal with
         | |- context [hex_byte line ?i] =>
             let E := fresh "E" in
             destruct (hex_byte line i) eqn:E; [apply hex_byte_range in E|done];
             cbn [mbind option_bind]
         end.
  intros [= <-]. unfold BinOp_in_range. simpl.
  repeat split; first [by apply WORD_of_bytes_range | apply to_SWORD_range].
Qed.

Lemma get_take (n : nat) :
  forall (s : string) (k : nat),
    (k < n)%nat -> String.get k (string_take n s) = String.get k s.
Proof.
  induction n as [|n IH]; intros s k Hk; [lia|].
  destruct s as [|c s]; [done|]. destruct k as [|k]; [done|].
  simpl. apply IH. lia.
Qed.

Lemma hex_byte_take (line : string) (i : nat) :
  (i < 10)%nat -> hex_byte (string_take 20 line) i = hex_byte line i.
Proof.
  intros Hi. unfold hex_byte, char_at. by rewrite !get_take by lia.
Qed.

Lemma decode_BinOp_take (line : string) :
  decode_BinOp line = decode_BinOp (string_take 20 line).
Proof. unfold decode_BinOp. by rewrite !hex_byte_take by lia. Qed.

(** The body of the record loop on two buffers without ["$$bits"] that
    start with the same twenty characters. *)
Lemma load_code_take (pc : Z) (m : Machine) (line other : string)
    (rest : list string) :
  strstr line "$$bits" = false -> strstr other "$$bits" = false ->
  string_take 20 other = string_take 20 line ->
  load_code pc m (other :: rest) = load_code pc m (line :: rest).
Proof.
  intros Hl Ho Ht. cbn [load_code]. rewrite Hl, Ho.
  rewrite <- (hex_byte_take other 0), <- (hex_byte_take line 0) by lia.
  by rewrite (decode_BinOp_take other), (decode_BinOp_take line), Ht.
Qed.

(** X8. In the record loop, a buffer that [fgets] has filled and that
    does not contain ["$$bits"] counts by its first twenty characters
    only: behind lines without ["$$bits"], the loop and the whole load
    do the same on two such buffers that start with the same twenty
    characters, whatever follows them and whatever their lengths. *)
Theorem record_loop_reads_twenty_characters
    (m : Machine) (first line other : string) (before rest : list string) :
  Forall (fun l => strstr l "$$bits" = false) before ->
  strstr line "$$bits" = false -> strstr other "$$bits" = false ->
  string_take 20 other = string_take 20 line ->
  (forall pc : Z,
      load_code pc m (before ++ other :: rest)
      = load_code pc m (before ++ line :: rest))
  /\ LoadProgram m (Some (first :: before ++ other :: rest))
     = LoadProgram m (Some (first :: before ++ line :: rest)).
Proof.
  intros Hbefore Hl Ho Ht.
  assert (Hloop : forall (pc : Z) (m0 : Machine),
             load_code pc m0 (before ++ other :: rest)
             = load_code pc m0 (before ++ line :: rest)).
  { induction Hbefore as [|b before Hb _ IH]; intros pc m0.
    - by apply load_code_take.
    - cbn [app load_code]. rewrite Hb.
      destruct (hex_byte b 0); [|done].
      destruct ((0 <=? pc) && (pc <? Z.of_nat (length (Program m0))));
        [|done].
      destruct (decode_BinOp b); [apply IH|done]. }
  split; [intros pc; apply Hloop|].
  unfold LoadProgram. by rewrite Hloop.
Qed.

Lemma char_code_of_code (z : Z) :
  0 <= z < 256 -> char_code (ascii_of_N (Z.to_N z)) = z.
Proof.
  intros Hz. unfold char_code. rewrite N_ascii_embedding; lia.
Qed.

Lemma char_code_range (c : ascii) : 0 <= char_code c < 256.
Proof.
  unfold char_code. pose proof (N_ascii_bounded c). lia.
Qed.

Lemma char_at_upper_case (s : string) :
  forall k : nat, char_at (upper_case s) k = toupper (char_at s k).
Proof.
  induction s as [|c s IH]; intros k; [by destruct k|].
  destruct k as [|k].
  - unfold char_at. simpl. apply char_code_of_code.
    pose proof (char_code_range c). unfold toupper.
    destruct (Z.leb_spec 97 (char_code c)), (Z.leb_spec (char_code c) 122);
      simpl; lia.
  - apply (IH k).
Qed.

(** X9. The records may be written with upper-case digits as well: a line
    decodes to the same instruction as its upper-case form, so two lines
    that differ in the case of their letters only decode alike. *)
Theorem decode_is_case_insensitive (line : string) :
  decode_BinOp (upper_case line) = decode_BinOp line
  /\ forall other : string,
       upper_case other = upper_case line ->
       decode_BinOp other = decode_BinOp line.
Proof.
  assert (H : forall l, decode_BinOp (upper_case l) = decode_BinOp l).
  { intros l.
    assert (Hb : forall i, hex_byte (upper_case l) i = hex_byte l i).
    { intros i. unfold hex_byte. rewrite !char_at_upper_case.
      by rewrite !HexDigit_toupper. }
    unfold decode_BinOp. by rewrite !Hb. }
  split; [apply H|]. intros other Ho. by rewrite <- (H other), Ho, H.
Qed.

(** ** LoadProgram: what a load needs, keeps and cannot take *)

Lemma load_code_Ok (lines : list string) :
  forall (pc : Z) (m m' : Machine) (rest : list string),
    load_code pc m lines = Ok (m', rest) ->
    Integers m' = Integers m /\ Bits m' = Bits m
    /\ length (Program m') = length (Program m)
    /\ exists (before : list string) (bits : string),
         lines = before ++ bits :: rest /\ strstr bits "$$bits" = true.
Proof.
  induction lines as [|line lines IH]; intros pc m m' rest; [done|].
  cbn [load_code]. destruct (strstr line "$$bits") eqn:Eb.
  - intros [= <- <-]. repeat split. by exists [], line.
  - destruct (hex_byte line 0); [|done].
    destruct ((0 <=? pc) && (pc <? Z.of_nat (length (Program m)))); [|done].
    destruct (decode_BinOp line) as [p|]; [|done].
    intros H. apply IH in H as (HI & HB & HP & before & bits & -> & Hbits).
    simpl in HI, HB, HP. rewrite length_insert in HP.
    repeat split; [done..|]. by exists (line :: before), bits.
Qed.

Lemma assign_pin_dom (symbol : string) (addr : option string)
    (pins pins' : gmap string Z) (name : string) :
  name ∈ dom pins ->
  assign_pin symbol addr (Ok pins) name = Ok pins' -> dom pins' = dom pins.
Proof.
  intros Hn. unfold assign_pin.
  destruct (strstr symbol name); [|congruence].
  destruct addr as [a|]; [|done]. destruct (atoi a) as [v|]; [|done].
  intros H; inversion H. rewrite dom_insert_L.
  apply subseteq_union_1_L. by apply singleton_subseteq_l.
Qed.

Lemma assign_pin_not_Ok (symbol : string) (addr : option string)
    (r : Result (gmap string Z)) (name : string) (pins' : gmap string Z) :
  assign_pin symbol addr r name = Ok pins' -> exists pins, r = Ok pins.
Proof. destruct r; [eauto|done..]. Qed.

Lemma assign_pins_dom (symbol : string) (addr : option string)
    (names : list string) :
  forall pins pins' : gmap string Z,
    Forall (fun n => n ∈ dom pins) names ->
    foldl (assign_pin symbol addr) (Ok pins) names = Ok pins' ->
    dom pins' = dom pins.
Proof.
  induction names as [|n names IH] using rev_ind; intros pins pins' Hn.
  - simpl. by intros ?; simplify_eq.
  - rewrite foldl_app. cbn [foldl]. intros H.
    apply Forall_app in Hn as [Hn Hn']. apply Forall_cons_1 in Hn' as [Hn' _].
    destruct (assign_pin_not_Ok _ _ _ _ _ H) as [pins1 H1].
    rewrite H1 in H. pose proof (IH pins pins1 Hn H1) as Hd.
    apply assign_pin_dom in H; [congruence|]. rewrite Hd. exact Hn'.
Qed.

Lemma load_symbol_dom (line : string) (pins pins' : gmap string Z) :
  Forall (fun n => n ∈ dom pins) pin_names ->
  load_symbol line pins = Ok pins' -> dom pins' = dom pins.
Proof.
  intros Hn. unfold load_symbol.
  destruct (strtok delim_comma line) as [[symbol saved]|]; [|done].
  destruct (foldl _ _ _) as [pins1| |] eqn:Ef; [|done..].
  apply assign_pins_dom in Ef; [|done].
  destruct (check_cycle _); [|done..]. by intros [= <-].
Qed.

Lemma load_symbols_dom (lines : list string) :
  forall pins pins' : gmap string Z,
    Forall (fun n => n ∈ dom pins) pin_names ->
    load_symbols pins lines = Ok pins' -> dom pins' = dom pins.
Proof.
  induction lines as [|line lines IH]; intros pins pins' Hn.
  - by intros [= <-].
  - cbn [load_symbols].
    destruct (load_symbol line pins) as [pins1| |] eqn:E; [|done..].
    pose proof (load_symbol_dom _ _ _ Hn E) as Hd.
    intros H. apply IH in H; [congruence|]. by rewrite Hd.
Qed.

Lemma init_pins_dom : dom init_pins = list_to_set pin_names.
Proof. unfold init_pins. rewrite dom_list_to_map_L. f_equal. Qed.

Lemma init_pins_names : Forall (fun n => n ∈ dom init_pins) pin_names.
Proof.
  rewrite init_pins_dom. apply Forall_forall. intros n Hn.
  by apply elem_of_list_to_set.
Qed.

(** X10. A load that returns had a first line with ["$$LDcode"] and a later
    line with ["$$bits"]; it leaves the two banks and the size of
    [Program] as they were, and it gives a value to each of the sixteen
    pin variables and to no other name. *)
Theorem LoadProgram_success
    (m m' : Machine) (file : option (list string)) (pins : gmap string Z) :
  LoadProgram m file = Ok (m', pins) ->
  (exists (first : string) (code : list string) (bits : string)
          (symbols : list string),
      file = Some (first :: code ++ bits :: symbols)
      /\ strstr first "$$LDcode" = true
      /\ strstr bits "$$bits" = true)
  /\ Integers m' = Integers m
  /\ Bits m' = Bits m
  /\ length (Program m') = length (Program m)
  /\ forall n : string, is_Some (pins !! n) <-> n ∈ pin_names.
Proof.
  unfold LoadProgram. destruct file as [[|first lines]|]; [done| |done].
  destruct (strstr first "$$LDcode") eqn:Ef; [|done].
  destruct (load_code 0 m lines) as [[m1 symbols]| |] eqn:Ec; [|done..].
  destruct (load_symbols init_pins symbols) as [pins1| |] eqn:Es; [|done..].
  intros [= <- <-].
  apply load_code_Ok in Ec as (HI & HB & HP & code & bits & -> & Hbits).
  split; [by exists first, code, bits, symbols|]. repeat split; [done..| |].
  - intros Hn. apply elem_of_dom in Hn.
    rewrite (load_symbols_dom _ _ _ init_pins_names Es), init_pins_dom in Hn.
    by apply elem_of_list_to_set in Hn.
  - intros Hn. apply elem_of_dom.
    rewrite (load_symbols_dom _ _ _ init_pins_names Es), init_pins_dom.
    by apply elem_of_list_to_set.
Qed.

(** The load of the records of [ps]. *)
Lemma LoadProgram_records_result (m : Machine) (ps : list BinOp) :
  Forall BinOp_in_range ps ->
  (length ps <= length (Program m))%nat ->
  LoadProgram m
    (Some (text_line "$$LDcode"
             :: (record_line <$> ps) ++ [text_line "$$bits"]))
  = Ok (set_Program m (ps ++ drop (length ps) (Program m)), init_pins).
Proof.
  intros Hps Hlen.
  assert (Hrec : Forall2 record_of (record_line <$> ps) ps).
  { apply Forall2_fmap_l, Forall_Forall2_diag.
    eapply Forall_impl; [exact Hps|]. intros p Hp. simpl.
    by apply record_line_record. }
  destruct (load_code_records _ ps 0 m Hrec) as (P' & HlenP & Hin & Hout & Hrun).
  { by rewrite length_fmap. }
  unfold LoadProgram.
  change (strstr (text_line "$$LDcode") "$$LDcode") with true. cbv iota.
  change 0 with (Z.of_nat 0). rewrite Hrun.
  rewrite load_code_bits by reflexivity. cbn [load_symbols].
  do 3 f_equal. apply list_eq. intros i.
  destruct (decide (i < length ps)%nat) as [Hi|Hi].
  - rewrite lookup_app_l by done.
    destruct (lookup_lt_is_Some_2 ps i Hi) as [p Hp].
    rewrite Hp. by apply (Hin i p).
  - rewrite lookup_app_r by lia. rewrite lookup_drop.
    rewrite Hout by (simpl; lia). f_equal. lia.
Qed.

(** X11. The text of a list of instructions is read back: a file with the
    header, the records of [ps] and the ["$$bits"] line loads; [Program]
    of the loaded machine starts with [ps], every instruction at its
    index, and holds what it held behind them; the integers and the bits
    are as before, and no pin variable is set. *)
Theorem LoadProgram_reads_back_records (m : Machine) (ps : list BinOp) :
  Forall BinOp_in_range ps ->
  (length ps <= length (Program m))%nat ->
  exists m' : Machine,
    LoadProgram m
      (Some (text_line "$$LDcode"
               :: (record_line <$> ps) ++ [text_line "$$bits"]))
    = Ok (m', init_pins)
    /\ Program m' = ps ++ drop (length ps) (Program m)
    /\ (forall (i : nat) (p : BinOp),
          ps !! i = Some p -> rd (Program m') (Z.of_nat i) = Some p)
    /\ Integers m' = Integers m
    /\ Bits m' = Bits m.
Proof.
  intros Hps Hlen. eexists.
  split; [by apply LoadProgram_records_result|].
  cbn [set_Program Program Integers Bits]. split; [done|].
  split; [|done]. intros i p Hp. unfold rd.
  destruct (Z.ltb_spec (Z.of_nat i) 0); [lia|].
  rewrite Nat2Z.id. by apply lookup_app_l_Some.
Qed.

(** X12. [Program] has room for as many records as it has elements: when it
    is full, one more record is written behind the array, which is
    undefined behaviour, not an error of the format. *)
Theorem Program_overflow_is_undefined
    (m : Machine) (first line : string) (recs : list string)
    (ps : list BinOp) (p : BinOp) (rest : list string) :
  strstr first "$$LDcode" = true ->
  Forall2 record_of recs ps ->
  length recs = length (Program m) ->
  record_of line p ->
  LoadProgram m (Some (first :: recs ++ line :: rest)) = Crash.
Proof.
  intros Hfirst Hrec Hlen [Hb Hd].
  destruct (load_code_records recs ps 0 m Hrec ltac:(simpl; lia))
    as (P' & HlenP & _ & _ & Hrun).
  unfold LoadProgram. rewrite Hfirst.
  change 0 with (Z.of_nat 0). rewrite Hrun. cbn [load_code].
  rewrite Hb. destruct (decode_first_byte line p Hd) as [b ->].
  cbn [set_Program Program]. rewrite HlenP, Hlen.
  destruct (Z.ltb_spec (Z.of_nat (0 + length (Program m)))
              (Z.of_nat (length (Program m)))); [lia|].
  by rewrite andb_false_r.
Qed.

(** ** LoadProgram: names inside symbols, symbols without an address *)



Lemma prefix_app (needle s t : string) :
  String.prefix needle s = true -> String.prefix needle (s +:+ t) = true.
Proof.
  revert s. induction needle as [|a needle IH]; intros s.
  - intros _. by destruct (s +:+ t).
  - destruct s as [|b s]; [done|]. rewrite append_cons. simpl.
    destruct (ascii_dec a b); [apply IH|done].
Qed.

Lemma strstr_app (needle s t : string) :
  strstr s needle = true -> strstr (s +:+ t) needle = true.
Proof.
  induction s as [|b s IH].
  - simpl. rewrite orb_false_r. intros H. destruct needle; [|done].
    by destruct t.
  - rewrite append_cons. cbn [strstr]. intros H.
    apply orb_true_iff in H as [H|H]; apply orb_true_iff.
    + left. by apply (prefix_app needle (String b s) t).
    + right. by apply IH.
Qed.

Lemma assign_pins_Crash (symbol : string) (addr : option string)
    (names : list string) :
  foldl (assign_pin symbol addr) Crash names = Crash.
Proof. induction names as [|k names IH]; [done|]. apply IH. Qed.

Lemma assign_pins_no_address (symbol : string) (names : list string) :
  Exists (fun n => strstr symbol n = true) names ->
  forall pins : gmap string Z,
    foldl (assign_pin symbol None) (Ok pins) names = Crash.
Proof.
  induction names as [|k names IH]; intros Hex pins.
  - by apply Exists_nil in Hex.
  - cbn [foldl]. unfold assign_pin at 2.
    destruct (strstr symbol k) eqn:Ek; [apply assign_pins_Crash|].
    apply IH. apply Exists_cons in Hex as [Hex|Hex]; [congruence|done].
Qed.

Lemma free_of_app (delim : ascii -> bool) (s t : string) :
  free_of delim (s +:+ t) = free_of delim s && free_of delim t.
Proof.
  induction s as [|c s IH]; [done|].
  rewrite append_cons. simpl. rewrite IH. by rewrite andb_assoc.
Qed.

(** X14. A symbol that holds a pin name and has no address behind it, with or
    without the comma, hands [atoi] a NULL pointer: the behaviour of the
    load is undefined. *)
Theorem pin_symbol_without_address_is_undefined
    (name n : string) (pins : gmap string Z) :
  name <> EmptyString -> free_of delim_comma name = true ->
  n ∈ pin_names -> strstr name n = true ->
  load_symbol (name +:+ nl) pins = Crash
  /\ load_symbol (name +:+ "," +:+ nl) pins = Crash.
Proof.
  intros Hn Hnf Hin Hs. split.
  - unfold load_symbol.
    rewrite strtok_free; [|by rewrite free_of_app, Hnf|by destruct name].
    cbn [fmap option_fmap option_map strtok skip_leading].
    rewrite assign_pins_no_address; [done|].
    apply Exists_exists. exists n. split; [done|]. by apply strstr_app.
  - unfold load_symbol.
    change ("," +:+ nl) with (String "," nl).
    rewrite (strtok_delimited delim_comma name "," nl Hnf Hn eq_refl).
    change (strtok delim_comma_cr_lf nl) with (@None (string * string)).
    cbn [fmap option_fmap option_map].
    rewrite assign_pins_no_address; [done|].
    apply Exists_exists. by exists n.
Qed.

(** ** The pins *)

Lemma gpio_pins_numbers (p q : Z * string * string) :
  p ∈ gpio_pins -> q ∈ gpio_pins -> pin_number p = pin_number q -> p = q.
Proof.
  unfold gpio_pins. intros Hp Hq.
  repeat (apply elem_of_cons in Hp as [->|Hp]);
    [..|by apply elem_of_nil in Hp];
    repeat (apply elem_of_cons in Hq as [-> | Hq]);
    first [done | by apply elem_of_nil in Hq].
Qed.

Lemma init_pin_calls (pins : gmap string Z) (q : Z * string * string)
    (c : GpioCall) :
  c ∈ init_pin pins q ->
  (c = pinMode (pin_number q) INPUT /\ 0 < input_address pins q)
  \/ (c = pinMode (pin_number q) OUTPUT
      /\ input_address pins q <= 0 /\ 0 < output_address pins q).
Proof.
  destruct q as [[k gi] go]. unfold init_pin, input_address, output_address.
  simpl. destruct (Z.ltb_spec 0 (global pins gi)).
  - intros ->%list_elem_of_singleton. by left.
  - destruct (Z.ltb_spec 0 (global pins go)).
    + intros ->%list_elem_of_singleton. by right.
    + by intros ?%elem_of_nil.
Qed.

(** X15. [initPins] makes a pin an input when its input address is positive,
    an output when only its output address is positive, and leaves it
    alone otherwise: a pin named both ways is an input, a pin whose
    address is 0 is not set up, and no pin is set up twice. *)
Theorem initPins_input_wins
    (pins : gmap string Z) (p : Z * string * string) :
  p ∈ gpio_pins ->
  (pinMode (pin_number p) INPUT ∈ initPins pins
     <-> 0 < input_address pins p)
  /\ (pinMode (pin_number p) OUTPUT ∈ initPins pins
     <-> input_address pins p <= 0 /\ 0 < output_address pins p).
Proof.
  intros Hp. unfold initPins.
  assert (Hin : forall c, c ∈ flat_map (init_pin pins) gpio_pins <->
                          exists q, q ∈ gpio_pins /\ c ∈ init_pin pins q).
  { intros c. rewrite list_elem_of_In, in_flat_map.
    split; intros (q & Hq & Hc); exists q; split;
      by apply list_elem_of_In. }
  split; split.
  - intros (q & Hq & Hc)%Hin.
    apply init_pin_calls in Hc as [[[= Hk] Ha]|[[=] _]].
    by rewrite (gpio_pins_numbers p q Hp Hq Hk).
  - intros Ha. apply Hin. exists p. split; [done|].
    destruct p as [[k gi] go]. unfold init_pin, input_address in *.
    simpl in *. destruct (Z.ltb_spec 0 (global pins gi)); [|lia].
    by apply list_elem_of_singleton.
  - intros (q & Hq & Hc)%Hin.
    apply init_pin_calls in Hc as [[[=] _]|[[= Hk] Ha]].
    by rewrite (gpio_pins_numbers p q Hp Hq Hk).
  - intros [Hi Ho]. apply Hin. exists p. split; [done|].
    destruct p as [[k gi] go].
    unfold init_pin, input_address, output_address in *. simpl in *.
    destruct (Z.ltb_spec 0 (global pins gi)); [lia|].
    destruct (Z.ltb_spec 0 (global pins go)); [|lia].
    by apply list_elem_of_singleton.
Qed.

Lemma read_inputs_None (digitalRead : Z -> Z) (pins : gmap string Z)
    (l : list (Z * string * string)) :
  foldl (read_input digitalRead pins) None l = None.
Proof.
  induction l as [|[[k gi] go] l IH]; [done|]. apply IH.
Qed.

Lemma read_input_step (digitalRead : Z -> Z) (pins : gmap string Z)
    (m : Machine) (q : Z * string * string) :
  read_input digitalRead pins (Some m) q =
    if 0 <? input_address pins q then
      a ← wr (Bits m) (input_address pins q)
             (to_BYTE (digitalRead (pin_number q)));
      Some (set_Bits m a)
    else Some m.
Proof. by destruct q as [[k gi] go]. Qed.

Lemma read_inputs_spec (digitalRead : Z -> Z) (pins : gmap string Z)
    (l : list (Z * string * string)) :
  forall m m' : Machine,
    foldl (read_input digitalRead pins) (Some m) l = Some m' ->
    Program m' = Program m /\ Integers m' = Integers m
    /\ length (Bits m') = length (Bits m)
    /\ (forall q, q ∈ l -> 0 < input_address pins q ->
          input_address pins q < Z.of_nat (length (Bits m)))
    /\ (forall a : Z,
          (forall q, q ∈ l -> 0 < input_address pins q ->
             input_address pins q <> a) ->
          rd (Bits m') a = rd (Bits m) a)
    /\ (forall q, q ∈ l -> 0 < input_address pins q ->
          (forall q', q' ∈ l ->
             input_address pins q' = input_address pins q ->
             pin_number q' = pin_number q) ->
          rd (Bits m') (input_address pins q)
            = Some (to_BYTE (digitalRead (pin_number q)))).
Proof.
  induction l as [|q0 l IH]; intros m m'.
  - intros [= <-]. repeat split; try done; by intros q ?%elem_of_nil.
  - cbn [foldl]. rewrite read_input_step.
    destruct (Z.ltb_spec 0 (input_address pins q0)) as [Hpos|Hneg].
    + destruct (wr (Bits m) (input_address pins q0) _) as [a|] eqn:Ew;
        [|by rewrite read_inputs_None].
      cbn [mbind option_bind]. intros Hrun.
      apply IH in Hrun as (HP & HI & HL & Hrange & Hframe & Hval).
      pose proof (wr_length _ _ _ _ Ew) as Hla.
      pose proof (wr_Some _ _ _ _ Ew) as [Hr0 ->].
      simpl in HP, HI, HL, Hrange, Hframe. rewrite length_insert in *.
      split; [done|]. split; [done|]. split; [done|]. split; [|split].
      * intros q [-> | Hq]%elem_of_cons Hq0; [lia|by apply Hrange].
      * intros a Ha. rewrite Hframe.
        -- unfold rd. destruct (a <? 0); [done|].
           apply list_lookup_insert_ne.
           specialize (Ha q0 (list_elem_of_here _ _) Hpos). lia.
        -- intros q Hq. apply Ha. by apply list_elem_of_further.
      * intros q Hq Hqpos Hsame.
        destruct (decide (Exists
                    (fun q' => input_address pins q'
                               = input_address pins q) l)) as [Hex|Hno].
        -- apply Exists_exists in Hex as (q' & Hq' & Ha').
           rewrite <- Ha', <- (Hsame q' (list_elem_of_further _ _ _ Hq') Ha').
           apply Hval; [done|lia|].
           intros q'' Hq'' Ha''. rewrite (Hsame q'); [|by right|done].
           apply Hsame; [by right|congruence].
        -- rewrite Exists_exists in Hno.
           apply elem_of_cons in Hq as [-> | Hq]; [|by destruct Hno; eauto].
           rewrite Hframe; [|intros q' Hq' _ Ha'; destruct Hno; eauto].
           unfold rd. destruct (Z.ltb_spec (input_address pins q0) 0); [lia|].
           apply list_lookup_insert_eq. lia.
    + intros Hrun.
      apply IH in Hrun as (HP & HI & HL & Hrange & Hframe & Hval).
      split; [done|]. split; [done|]. split; [done|]. split; [|split].
      * intros q [-> | Hq]%elem_of_cons Hq0; [lia|by apply Hrange].
      * intros a Ha. apply Hframe. intros q Hq. apply Ha. by right.
      * intros q [-> | Hq]%elem_of_cons Hqpos Hsame; [lia|].
        apply Hval; [done..|]. intros q' Hq'. apply Hsame. by right.
Qed.

Lemma read_inputs_defined (digitalRead : Z -> Z) (pins : gmap string Z)
    (l : list (Z * string * string)) :
  forall m : Machine,
    (forall q, q ∈ l -> 0 < input_address pins q ->
       input_address pins q < Z.of_nat (length (Bits m))) ->
    exists m', foldl (read_input digitalRead pins) (Some m) l = Some m'.
Proof.
  induction l as [|q0 l IH]; intros m Hr; [by exists m|].
  cbn [foldl]. rewrite read_input_step.
  destruct (Z.ltb_spec 0 (input_address pins q0)) as [Hpos|Hneg].
  - rewrite wr_ok by (specialize (Hr q0 (list_elem_of_here _ _) Hpos); lia).
    cbn [mbind option_bind]. apply IH. simpl. rewrite length_insert.
    intros q Hq. apply Hr. by right.
  - apply IH. intros q Hq. apply Hr. by right.
Qed.

(** X16. [getInputs] stays inside [Bits] exactly when every positive input
    address is an index of [Bits]; an address of 0 or below, the -1 of a
    pin without a symbol among them, is not used at all. *)
Theorem getInputs_defined
    (digitalRead : Z -> Z) (pins : gmap string Z) (m : Machine) :
  (exists m', getInputs digitalRead pins m = Some m')
  <-> (forall q, q ∈ gpio_pins -> 0 < input_address pins q ->
         input_address pins q < Z.of_nat (length (Bits m))).
Proof.
  split.
  - intros [m' H]. by apply read_inputs_spec in H as (_ & _ & _ & Hr & _).
  - apply read_inputs_defined.
Qed.

(** X17. [getInputs] changes nothing but the bit cells at the positive input
    addresses: the Program, the integers and every other bit, the bit at
    address 0 among them, are as before.  The cell at the address of an
    input pin holds the level read from that pin, when no other pin has
    the same address. *)
Theorem getInputs_copies_the_levels
    (digitalRead : Z -> Z) (pins : gmap string Z) (m m' : Machine) :
  getInputs digitalRead pins m = Some m' ->
  Program m' = Program m /\ Integers m' = Integers m
  /\ length (Bits m') = length (Bits m)
  /\ (forall a : Z,
        (forall q, q ∈ gpio_pins -> 0 < input_address pins q ->
           input_address pins q <> a) ->
        rd (Bits m') a = rd (Bits m) a)
  /\ rd (Bits m') 0 = rd (Bits m) 0
  /\ (forall q, q ∈ gpio_pins -> 0 < input_address pins q ->
        (forall q', q' ∈ gpio_pins ->
           input_address pins q' = input_address pins q -> q' = q) ->
        rd (Bits m') (input_address pins q)
          = Some (to_BYTE (digitalRead (pin_number q)))).
Proof.
  intros H. apply read_inputs_spec in H as (HP & HI & HL & _ & Hframe & Hval).
  split; [done|]. split; [done|]. split; [done|]. split; [done|]. split.
  - apply Hframe. intros q _ Hq. lia.
  - intros q Hq Hpos Hsame. apply Hval; [done..|].
    intros q' Hq' Ha. by rewrite (Hsame q' Hq' Ha).
Qed.

Lemma write_outputs_None (pins : gmap string Z) (m : Machine)
    (l : list (Z * string * string)) :
  foldl (write_output pins m) None l = None.
Proof. induction l as [|[[k gi] go] l IH]; [done|]. apply IH. Qed.

Lemma write_output_step (pins : gmap string Z) (m : Machine)
    (cs : list GpioCall) (q : Z * string * string) :
  write_output pins m (Some cs) q =
    if 0 <? output_address pins q then
      b ← rd (Bits m) (output_address pins q);
      Some (cs ++ [digitalWrite (pin_number q) b])
    else Some cs.
Proof. by destruct q as [[k gi] go]. Qed.

Lemma write_outputs_spec (pins : gmap string Z) (m : Machine)
    (l : list (Z * string * string)) :
  forall cs cs' : list GpioCall,
    foldl (write_output pins m) (Some cs) l = Some cs' ->
    forall c : GpioCall,
      c ∈ cs' <->
      c ∈ cs \/
      exists q b, q ∈ l /\ 0 < output_address pins q
                  /\ rd (Bits m) (output_address pins q) = Some b
                  /\ c = digitalWrite (pin_number q) b.
Proof.
  induction l as [|q0 l IH]; intros cs cs'.
  - intros [= <-] c. split; [by left|].
    intros [Hc|(q & b & Hq & _)]; [done|]. by apply elem_of_nil in Hq.
  - cbn [foldl]. rewrite write_output_step.
    destruct (Z.ltb_spec 0 (output_address pins q0)) as [Hpos|Hneg].
    + destruct (rd (Bits m) (output_address pins q0)) as [b0|] eqn:Er;
        [|by rewrite write_outputs_None].
      cbn [mbind option_bind]. intros Hrun c.
      rewrite (IH _ _ Hrun c), elem_of_app, list_elem_of_singleton.
      split.
      * intros [[? | ->] | (q & b & Hq & ?)]; [by left| |].
        -- right. exists q0, b0. by repeat split; [left|..].
        -- right. exists q, b. by split; [right|].
      * intros [? | (q & b & [-> | Hq]%elem_of_cons & Hp & Hb & ->)];
          [by left; left| |].
        -- left. right. congruence.
        -- right. by exists q, b.
    + intros Hrun c. rewrite (IH _ _ Hrun c). split.
      * intros [?|(q & b & Hq & ?)]; [by left|].
        right. exists q, b. by split; [right|].
      * intros [? | (q & b & [-> | Hq]%elem_of_cons & Hp & Hb & ->)];
          [by left|lia|]. right. by exists q, b.
Qed.

(** X18. [setOutputs] writes to a pin exactly when its output address is
    positive, and what it writes is the bit at that address; whether
    [initPins] has made the pin an input plays no part. *)
Theorem setOutputs_drives_the_wired_outputs
    (pins : gmap string Z) (m : Machine) (calls : list GpioCall) :
  setOutputs pins m = Some calls ->
  forall c : GpioCall,
    c ∈ calls <->
    exists q b, q ∈ gpio_pins /\ 0 < output_address pins q
                /\ rd (Bits m) (output_address pins q) = Some b
                /\ c = digitalWrite (pin_number q) b.
Proof.
  intros H c. rewrite (write_outputs_spec pins m gpio_pins [] calls H c).
  split; [|by right]. intros [Hc|Hc]; [|done]. by apply elem_of_nil in Hc.
Qed.

(** ** main *)

Lemma Disassemble_from_Finished (T : IntCodes) (P : list BinOp) :
  forall pc : Z,
    snd (Disassemble_from T pc P) = Finished ->
    exists (pre : list BinOp) (e : BinOp) (rest : list BinOp),
      P = pre ++ e :: rest
      /\ forallb (listed T) pre = true /\ is_END T e = true.
Proof.
  induction P as [|p P IH]; intros pc; [done|].
  cbn [Disassemble_from]. unfold dis_switch, listed, known_opb, is_END in *.
  destruct (classify T (op p)) as [o|] eqn:Ec; [|done].
  destruct o;
    try (cbn [snd]; intros (pre & e & rest & -> & Hpre & He)%IH;
         exists (p :: pre), e, rest; split; [done|]; split; [|done];
         cbn [forallb]; by rewrite Ec, Hpre).
  intros _. exists [], p, P. by rewrite Ec.
Qed.

Lemma LoadProgram_Ok_frame
    (m m' : Machine) (file : option (list string)) (pins : gmap string Z) :
  LoadProgram m file = Ok (m', pins) ->
  Integers m' = Integers m /\ Bits m' = Bits m
  /\ length (Program m') = length (Program m).
Proof.
  unfold LoadProgram. destruct file as [[|first lines]|]; [done| |done].
  destruct (strstr first "$$LDcode"); [|done].
  destruct (load_code 0 m lines) as [[m1 symbols]| |] eqn:Ec; [|done..].
  destruct (load_symbols init_pins symbols); [|done..].
  intros [= <- <-]. by apply load_code_Ok in Ec as (HI & HB & HP & _).
Qed.

(** X19. The loop of [main] is entered only after [Disassemble] has gone
    through the Program: it then starts with the Program [LoadProgram]
    left, in which an END_OF_PROGRAM comes after instructions with
    opcodes of the set, with both banks cleared, and with the pins set
    up from the pin variables. *)
Theorem main_enters_the_loop_with_a_checked_Program
    (T : IntCodes) (argc : Z) (file : option (list string))
    (m m2 : Machine) (pins : gmap string Z) (calls : list GpioCall) :
  main_startup T argc file m = (calls, Ok (m2, pins)) ->
  argc = 2
  /\ (exists m1 : Machine,
        LoadProgram m file = Ok (m1, pins) /\ Program m2 = Program m1)
  /\ (exists (pre : list BinOp) (e : BinOp) (rest : list BinOp),
        Program m2 = pre ++ e :: rest
        /\ forallb (listed T) pre = true /\ is_END T e = true)
  /\ Integers m2 = replicate (length (Integers m)) 0
  /\ Bits m2 = replicate (length (Bits m)) 0
  /\ calls = wiringPiSetup :: initPins pins.
Proof.
  unfold main_startup. destruct (Z.eqb_spec argc 2) as [->|]; [|done].
  destruct (LoadProgram m file) as [[m1 pins1]| |] eqn:El; [|done..].
  destruct (snd (Disassemble T (clear_banks m1))) eqn:Ed; [|done..].
  intros [= <- <- <-].
  apply LoadProgram_Ok_frame in El as (HI & HB & _).
  split; [done|]. split; [by exists m1|]. split.
  - by apply Disassemble_from_Finished in Ed.
  - simpl. by rewrite HI, HB.
Qed.

(** X20. A file whose records hold an opcode outside the set before the first
    END_OF_PROGRAM is loaded and the pins are set up, and [main] then
    ends in [Disassemble], before any cycle is run. *)
Theorem main_refuses_an_unknown_opcode
    (T : IntCodes) (file : option (list string)) (m m1 : Machine)
    (pins : gmap string Z) (pre : list BinOp) (bad : BinOp)
    (rest : list BinOp) :
  LoadProgram m file = Ok (m1, pins) ->
  Program m1 = pre ++ bad :: rest ->
  forallb (listed T) pre = true ->
  ~ known_op T (op bad) ->
  main_startup T 2 file m = (wiringPiSetup :: initPins pins, Exit).
Proof.
  intros El HP Hpre Hbad. apply classify_None in Hbad.
  unfold main_startup. cbn [Z.eqb Pos.eqb]. rewrite El.
  unfold Disassemble. cbn [clear_banks Program]. rewrite HP.
  by rewrite (Disassemble_from_unknown T pre 0 bad rest Hpre Hbad).
Qed.

Lemma scan_frame (T : IntCodes) (fuel : nat) (digitalRead : Z -> Z)
    (pins : gmap string Z) (m m' : Machine) (calls : list GpioCall) :
  scan T fuel digitalRead pins m = Returned (m', calls) ->
  Program m' = Program m
  /\ length (Integers m') = length (Integers m)
  /\ length (Bits m') = length (Bits m).
Proof.
  unfold scan.
  destruct (getInputs digitalRead pins m) as [m1|] eqn:Eg; [|done].
  destruct (InterpretOneCycle T fuel m1) as [m2| |] eqn:Ec; [|done..].
  destruct (setOutputs pins m2) as [cs|]; [|done].
  intros [= <- <-].
  apply read_inputs_spec in Eg as (HP & HI & HL & _).
  pose proof (cycle_from_Program T fuel m1 m2 0 Ec) as HP'.
  apply cycle_from_sizes in Ec as [HI' HL'].
  split; [congruence|]. split; congruence.
Qed.

(** X21. However many turns the loop of [main] makes, the Program stays the
    one it started with and the two banks keep their sizes. *)
Theorem scans_keep_the_Program
    (T : IntCodes) (fuel : nat) (digitalRead : nat -> Z -> Z)
    (pins : gmap string Z) (n : nat) (m m' : Machine)
    (calls : list GpioCall) :
  scans T fuel digitalRead pins n m = Returned (m', calls) ->
  Program m' = Program m
  /\ length (Integers m') = length (Integers m)
  /\ length (Bits m') = length (Bits m).
Proof.
  revert m' calls. induction n as [|k IH]; intros m' calls.
  - by intros [= <- <-].
  - cbn [scans].
    destruct (scans T fuel digitalRead pins k m) as [[m1 cs]| |]; [|done..].
    destruct (IH m1 cs eq_refl) as (HP & HI & HB).
    destruct (scan T fuel (digitalRead k) pins m1) as [[m2 cs']| |] eqn:Es;
      [|done..].
    intros [= <- <-]. apply scan_frame in Es as (HP' & HI' & HB').
    split; [congruence|]. split; congruence.
Qed.

(** ** LoadProgram: the cycle time that is taken *)


(** ** The further properties at concrete inputs *)

(** SET_BIT 1 of the three-instruction program writes bit 1 only. *)
Lemma instruction_writes_one_cell_witness :
  body sample_codes (jump_bias_machine 1) 1
    = Break (set_Bits (jump_bias_machine 1) [1; 1]) 1
  /\ Integers (set_Bits (jump_bias_machine 1) [1; 1])
     = Integers (jump_bias_machine 1)
  /\ rd (Bits (set_Bits (jump_bias_machine 1) [1; 1])) 0
     = rd (Bits (jump_bias_machine 1)) 0.
Proof.
  split; [reflexivity|].
  destruct (instruction_writes_one_cell sample_codes (jump_bias_machine 1)
              (set_Bits (jump_bias_machine 1) [1; 1]) 1 1
              (instr sample_codes SET_BIT 1 0 0 0) eq_refl eq_refl)
    as (_ & _ & _ & Hother & _).
  split; [reflexivity|]. apply (Hother 0). discriminate.
Defined.

(** The cell 32767 is a 16-bit value, and so is what INCREMENT leaves. *)
Lemma cycle_keeps_banks_well_typed_witness :
  Forall is_SWORD (Integers (set_Integers (increment_machine 32767) [-32768])).
Proof.
  apply (cycle_keeps_banks_well_typed sample_codes 2
           (increment_machine 32767)
           (set_Integers (increment_machine 32767) [-32768])).
  - repeat constructor; unfold is_SWORD; simpl; lia.
  - repeat constructor; unfold is_SWORD; lia.
  - constructor.
  - reflexivity.
Defined.

(** Opcode 0 in second place: one line, then the index 001 and the end. *)
Lemma Disassemble_unknown_opcode_exits_witness :
  Disassemble sample_codes
    {| Program := [instr sample_codes SET_BIT 1 0 0 0; zero_BinOp];
       Integers := []; Bits := [] |}
  = (unlines ["000: bits[001] := 1"%string] +:+ "001: ", ExitFailure).
Proof.
  apply (Disassemble_unknown_opcode_exits sample_codes _
           [instr sample_codes SET_BIT 1 0 0 0] zero_BinOp []).
  - reflexivity.
  - reflexivity.
  - apply classify_None. reflexivity.
Defined.

(** A Program of one SET_BIT and no END. *)
Lemma Disassemble_without_END_leaves_Program_witness :
  Disassemble sample_codes
    {| Program := [instr sample_codes SET_BIT 1 0 0 0];
       Integers := []; Bits := [] |}
  = (unlines ["000: bits[001] := 1"%string], UndefinedBehaviour).
Proof.
  apply (Disassemble_without_END_leaves_Program sample_codes
           {| Program := [instr sample_codes SET_BIT 1 0 0 0];
              Integers := []; Bits := [] |}).
  reflexivity.
Defined.

(** The record ffff0000000000000080 has the opcode 65535 and the literal
    -32768. *)
Lemma decoded_fields_are_16_bit_witness :
  BinOp_in_range
    {| op := 65535; name1 := 0; name2 := 0; name3 := 0; literal := -32768 |}.
Proof.
  apply (decoded_fields_are_16_bit (text_line "ffff0000000000000080")).
  reflexivity.
Defined.

(** The load of the file with the one record END. *)
Lemma LoadProgram_success_witness :
  Integers (set_Program one_slot_machine
              [instr sample_codes END_OF_PROGRAM 0 0 0 0])
    = Integers one_slot_machine
  /\ forall n : string, is_Some (init_pins !! n) <-> n ∈ pin_names.
Proof.
  destruct (LoadProgram_success one_slot_machine
              (set_Program one_slot_machine
                 [instr sample_codes END_OF_PROGRAM 0 0 0 0])
              END_file init_pins) as (_ & HI & _ & _ & Hpins).
  - vm_compute. reflexivity.
  - split; [exact HI|exact Hpins].
Defined.

(** Two instructions are read back from their records. *)
Lemma LoadProgram_reads_back_records_witness :
  Program initial_machine !! 0%nat = Some zero_BinOp
  /\ exists m' : Machine,
       LoadProgram initial_machine
         (Some (text_line "$$LDcode"
                  :: (record_line <$>
                        [ instr sample_codes SET_BIT 1 0 0 0;
                          instr sample_codes END_OF_PROGRAM 0 0 0 0 ])
                     ++ [text_line "$$bits"]))
       = Ok (m', init_pins)
       /\ rd (Program m') 0 = Some (instr sample_codes SET_BIT 1 0 0 0)
       /\ rd (Program m') 1
            = Some (instr sample_codes END_OF_PROGRAM 0 0 0 0)
       /\ rd (Program m') 2 = Some zero_BinOp.
Proof.
  split; [reflexivity|].
  destruct (LoadProgram_reads_back_records initial_machine
              [ instr sample_codes SET_BIT 1 0 0 0;
                instr sample_codes END_OF_PROGRAM 0 0 0 0 ])
    as (m' & Hload & HP & Hin & _).
  - repeat constructor; unfold is_WORD, is_SWORD; simpl; lia.
  - vm_compute. lia.
  - exists m'. split; [exact Hload|].
    split; [exact (Hin 0%nat _ eq_refl)|].
    split; [exact (Hin 1%nat _ eq_refl)|].
    rewrite HP. reflexivity.
Defined.

(** A record followed by other text is loaded as the record alone. *)
Lemma record_loop_reads_twenty_characters_witness :
  LoadProgram initial_machine
    (Some [ text_line "$$LDcode";
            text_line "ffff0100020003000400 and more text";
            text_line "$$bits" ])
  = LoadProgram initial_machine
      (Some [ text_line "$$LDcode"; text_line "ffff0100020003000400";
              text_line "$$bits" ]).
Proof.
  apply (record_loop_reads_twenty_characters initial_machine
           (text_line "$$LDcode") (text_line "ffff0100020003000400")
           (text_line "ffff0100020003000400 and more text")
           [] [text_line "$$bits"]);
    [constructor|reflexivity..].
Defined.

(** A second record for a Program of one element. *)
Lemma Program_overflow_is_undefined_witness :
  LoadProgram one_slot_machine
    (Some [ text_line "$$LDcode"; record_line zero_BinOp;
            record_line zero_BinOp; text_line "$$bits" ]) = Crash.
Proof.
  apply (Program_overflow_is_undefined one_slot_machine
           (text_line "$$LDcode") (record_line zero_BinOp)
           [record_line zero_BinOp] [zero_BinOp] zero_BinOp
           [text_line "$$bits"]).
  - reflexivity.
  - constructor; [split; reflexivity|constructor].
  - reflexivity.
  - split; reflexivity.
Defined.


(** The line GPI0 alone and the line GPI0 with a comma. *)
Lemma pin_symbol_without_address_is_undefined_witness :
  load_symbol (text_line "GPI0") init_pins = Crash
  /\ load_symbol (symbol_line "GPI0" "") init_pins = Crash.
Proof.
  apply (pin_symbol_without_address_is_undefined "GPI0" "GPI0" init_pins);
    [discriminate|reflexivity| |reflexivity].
  apply list_elem_of_In. simpl. tauto.
Defined.

(** Pin 3, named both ways, is made an input and not an output. *)
Lemma initPins_input_wins_witness :
  pinMode 3 INPUT ∈ initPins wired_pins
  /\ ~ pinMode 3 OUTPUT ∈ initPins wired_pins.
Proof.
  destruct (initPins_input_wins wired_pins (3, "GPI3", "GPO3")%string)
    as [Hin Hout].
  - apply list_elem_of_In. simpl. tauto.
  - split.
    + apply Hin. reflexivity.
    + intros H. apply Hout in H as [H _]. vm_compute in H. by apply H.
Defined.

(** With pin 1 high, the bit at address 1 is set and bit 0 is kept. *)
Lemma getInputs_copies_the_levels_witness :
  getInputs pin_1_high wired_pins four_bit_machine
    = Some (set_Bits four_bit_machine [0; 1; 1; 0])
  /\ rd (Bits (set_Bits four_bit_machine [0; 1; 1; 0])) 0
     = rd (Bits four_bit_machine) 0.
Proof.
  split; [reflexivity|].
  apply (getInputs_copies_the_levels pin_1_high wired_pins four_bit_machine
           (set_Bits four_bit_machine [0; 1; 1; 0])).
  reflexivity.
Defined.

(** The outputs at the addresses 2 and 1 are written, pin 3 though it is
    an input. *)
Lemma setOutputs_drives_the_wired_outputs_witness :
  setOutputs wired_pins four_bit_machine
    = Some [digitalWrite 2 1; digitalWrite 3 0]
  /\ digitalWrite 3 0 ∈ [digitalWrite 2 1; digitalWrite 3 0].
Proof.
  split; [reflexivity|].
  apply (setOutputs_drives_the_wired_outputs wired_pins four_bit_machine
           [digitalWrite 2 1; digitalWrite 3 0] eq_refl).
  exists (3, "GPI3", "GPO3")%string, 0. split; [|done].
  apply list_elem_of_In. simpl. tauto.
Defined.

(** [main] on the file with the one record END. *)
Lemma main_enters_the_loop_with_a_checked_Program_witness :
  main_startup sample_codes 2 END_file one_slot_machine
    = ([wiringPiSetup],
       Ok (set_Program one_slot_machine
             [instr sample_codes END_OF_PROGRAM 0 0 0 0], init_pins))
  /\ Bits (set_Program one_slot_machine
             [instr sample_codes END_OF_PROGRAM 0 0 0 0]) = [0].
Proof.
  assert (H : main_startup sample_codes 2 END_file one_slot_machine
              = ([wiringPiSetup],
                 Ok (set_Program one_slot_machine
                       [instr sample_codes END_OF_PROGRAM 0 0 0 0],
                     init_pins))) by (vm_compute; reflexivity).
  split; [exact H|].
  by destruct (main_enters_the_loop_with_a_checked_Program sample_codes 2
                 END_file one_slot_machine _ _ _ H)
    as (_ & _ & _ & _ & HB & _).
Defined.

(** [main] on the file with a record of opcode 0 before END. *)
Lemma main_refuses_an_unknown_opcode_witness :
  main_startup sample_codes 2 unknown_opcode_file initial_machine
    = (wiringPiSetup :: initPins init_pins, Exit).
Proof.
  apply (main_refuses_an_unknown_opcode sample_codes unknown_opcode_file
           initial_machine
           (set_Program initial_machine
              ([zero_BinOp; instr sample_codes END_OF_PROGRAM 0 0 0 0]
                 ++ drop 2 (Program initial_machine)))
           init_pins [] zero_BinOp
           (instr sample_codes END_OF_PROGRAM 0 0 0 0
              :: drop 2 (Program initial_machine))).
  - vm_compute. reflexivity.
  - reflexivity.
  - reflexivity.
  - apply classify_None. reflexivity.
Defined.

(** Three turns of the loop on the one-instruction Program. *)
Lemma scans_keep_the_Program_witness :
  Program (set_Bits four_bit_machine [0; 1; 1; 0])
    = Program four_bit_machine.
Proof.
  apply (scans_keep_the_Program sample_codes 1 (fun _ => pin_1_high)
           wired_pins 3 four_bit_machine
           (set_Bits four_bit_machine [0; 1; 1; 0])
           [ digitalWrite 2 1; digitalWrite 3 1; digitalWrite 2 1;
             digitalWrite 3 1; digitalWrite 2 1; digitalWrite 3 1 ]).
  vm_compute. reflexivity.
Defined.

